(** * latency.cpp: per-compute-unit memory latency probe (HIP)

    A shallow embedding of [src/latency.cpp]:
    - the device routine [__smid], which reads hardware identification
      registers with [s_getreg] and packs the fields into one integer;
    - the kernel [k], as a small-step machine per hardware thread, run
      under an arbitrary interleaving of the launched threads;
    - the host program [main], as a computation over a trace of runtime
      calls, with the answers of the HIP runtime supplied by an
      environment.

    Unsigned 32-bit values are integers in [0, 2^32) with the wrap-around
    written out; device buffers are lists read with [!!] and written
    with [<[_:=_]>]. *)

From Stdlib Require Import ZArith Lia String Ascii DecimalString DecimalN.
From stdpp Require Import base tactics option list.

Open Scope Z_scope.

(** ** Unsigned 32-bit arithmetic *)

Module U32.

Definition modulus : Z := 2 ^ 32.

(** Conversion of an integer value to [unsigned int]. *)
Definition wrap (x : Z) : Z := x mod modulus.

Definition add (x y : Z) : Z := wrap (x + y).
Definition sub (x y : Z) : Z := wrap (x - y).
Definition shl (x n : Z) : Z := wrap (Z.shiftl x n).

Definition in_range (x : Z) : Prop := 0 <= x < modulus.

End U32.

(** ** The hardware-unit locator (lines 51-149) *)

(** The target macros the preprocessor tests.  Every combination is a
    build; the conditionals below are the ones of the source. *)
Record Build := {
  __GFX10__ : bool;
  __GFX11__ : bool;
  __AMDGCN_CUMODE__ : bool;
  __gfx908__ : bool;
  __gfx90a__ : bool;
  __gfx940__ : bool;
  __gfx941__ : bool;
  __gfx942__ : bool
}.

Definition rdna (b : Build) : bool := __GFX10__ b || __GFX11__ b.
Definition gfx94x (b : Build) : bool := __gfx940__ b || __gfx941__ b || __gfx942__ b.

(** Lines 51-55. *)
Definition HW_ID (b : Build) : Z := if rdna b then 23 else 4.

(** Lines 57-67.  [HW_ID_WGP_ID_SIZE] and [HW_ID_WGP_ID_OFFSET] exist only
    in RDNA builds, and are used only there. *)
Definition HW_ID_WGP_ID_SIZE : Z := 4.
Definition HW_ID_WGP_ID_OFFSET : Z := 10.
Definition HW_ID_CU_ID_SIZE (b : Build) : Z := if rdna b then 1 else 4.
Definition HW_ID_CU_ID_OFFSET : Z := 8.

(** Lines 69-81. *)
Definition HW_ID_SE_ID_SIZE (b : Build) : Z :=
  if __gfx908__ b || __gfx90a__ b || __GFX11__ b then 3 else 2.
Definition HW_ID_SE_ID_OFFSET (b : Build) : Z := if rdna b then 18 else 13.
Definition HW_ID_SA_ID_OFFSET : Z := 16.
Definition HW_ID_SA_ID_SIZE : Z := 1.

(** Lines 83-87. *)
Definition XCC_ID : Z := 20.
Definition XCC_ID_XCC_ID_SIZE : Z := 4.
Definition XCC_ID_XCC_ID_OFFSET : Z := 0.

(** Line 101. *)
Definition GETREG_IMMED (SZ OFF REG : Z) : Z :=
  Z.lor (Z.lor (Z.shiftl SZ 11) (Z.shiftl OFF 6)) REG.

(** The hardware registers of the wave a thread runs in: register number
    to 32-bit contents. *)
Definition Regs : Type := Z -> Z.

(** [__builtin_amdgcn_s_getreg]: the immediate is decoded as the comment
    at lines 94-99 lays it out (register in bits 5:0, offset in 10:6,
    size minus one in 15:11), and the selected bit field of the register
    is returned. *)
Definition s_getreg (regs : Regs) (imm : Z) : Z :=
  let reg := Z.land imm 63 in
  let off := Z.land (Z.shiftr imm 6) 31 in
  let size := Z.land (Z.shiftr imm 11) 31 + 1 in
  Z.land (Z.shiftr (regs reg) off) (Z.ones size).

(** The local variables of [__smid].  A build declares only some of them;
    the ones it does not declare are not read by its packing code. *)
Record Fields := {
  se_id : Z;
  sa_id : Z;
  wgp_id : Z;
  cu_id : Z;
  xcc_id : Z
}.

(** Lines 113-131: the register reads. *)
Definition read_fields (b : Build) (regs : Regs) : Fields :=
  {| se_id := s_getreg regs
       (GETREG_IMMED (HW_ID_SE_ID_SIZE b - 1) (HW_ID_SE_ID_OFFSET b) (HW_ID b));
     wgp_id :=
       if rdna b
       then s_getreg regs
              (GETREG_IMMED (HW_ID_WGP_ID_SIZE - 1) HW_ID_WGP_ID_OFFSET (HW_ID b))
       else 0;
     sa_id :=
       if rdna b
       then s_getreg regs
              (GETREG_IMMED (HW_ID_SA_ID_SIZE - 1) HW_ID_SA_ID_OFFSET (HW_ID b))
       else 0;
     cu_id :=
       if rdna b && negb (__AMDGCN_CUMODE__ b) then 0
       else s_getreg regs
              (GETREG_IMMED (HW_ID_CU_ID_SIZE b - 1) HW_ID_CU_ID_OFFSET (HW_ID b));
     xcc_id :=
       if negb (rdna b) && gfx94x b
       then s_getreg regs
              (GETREG_IMMED (XCC_ID_XCC_ID_SIZE - 1) XCC_ID_XCC_ID_OFFSET XCC_ID)
       else 0 |}.

(** Lines 132-148: the packing of the fields into the identity. *)
Definition pack (b : Build) (f : Fields) : Z :=
  if rdna b then
    let temp := se_id f in
    let temp := Z.lor (U32.shl temp HW_ID_SA_ID_SIZE) (sa_id f) in
    let temp := Z.lor (U32.shl temp HW_ID_WGP_ID_SIZE) (wgp_id f) in
    if __AMDGCN_CUMODE__ b
    then Z.lor (U32.shl temp (HW_ID_CU_ID_SIZE b)) (cu_id f)
    else temp
  else if gfx94x b then
    let temp := xcc_id f in
    let temp := Z.lor (U32.shl temp (HW_ID_SE_ID_SIZE b)) (se_id f) in
    let temp := Z.lor (U32.shl temp (HW_ID_CU_ID_SIZE b)) (cu_id f) in
    temp
  else
    U32.add (U32.shl (se_id f) (HW_ID_CU_ID_SIZE b)) (cu_id f).

(** Lines 109-149. *)
Definition __smid (b : Build) (regs : Regs) : Z :=
  pack b (read_fields b regs).

(** The fields a build reads, in packing order, each with its width. *)
Definition constituents (b : Build) (f : Fields) : list (Z * Z) :=
  if rdna b then
    [(se_id f, HW_ID_SE_ID_SIZE b); (sa_id f, HW_ID_SA_ID_SIZE);
     (wgp_id f, HW_ID_WGP_ID_SIZE)]
    ++ (if __AMDGCN_CUMODE__ b then [(cu_id f, HW_ID_CU_ID_SIZE b)] else [])
  else
    (if gfx94x b then [(xcc_id f, XCC_ID_XCC_ID_SIZE)] else [])
    ++ [(se_id f, HW_ID_SE_ID_SIZE b); (cu_id f, HW_ID_CU_ID_SIZE b)].

(** A combination of field values is legal when every field the build
    reads fits the bit width the build gives it. *)
Definition legalb (b : Build) (f : Fields) : bool :=
  forallb (fun vw => (0 <=? fst vw) && (fst vw <? 2 ^ snd vw)) (constituents b f).

Definition legal (b : Build) (f : Fields) : Prop := legalb b f = true.

(** Modelled from the spec: [get_smid], the locator the kernel calls at
    line 153, has no definition under src/.  The spec's Hardware-Unit
    Locator is the identity-packing routine, so the call is taken to be a
    call of [__smid]. *)
Definition get_smid (b : Build) (regs : Regs) : Z := __smid b regs.

(** ** Formatted output *)

Definition LF : string := String (ascii_of_nat 10) EmptyString.

(** The decimal digits of a non-negative integer. *)
Definition decimal (x : Z) : string :=
  NilZero.string_of_uint (N.to_uint (Z.to_N x)).

(** [printf("%u\n", x)] *)
Definition printf_u (x : Z) : string := (decimal x ++ LF)%string.

Definition is_digit (c : ascii) : bool :=
  ((48 <=? nat_of_ascii c) && (nat_of_ascii c <=? 57))%nat.

(** One or more decimal digits followed by a newline, and nothing else. *)
Fixpoint decimal_line (s : string) : bool :=
  match s with
  | EmptyString => false
  | String c rest => is_digit c && (String.eqb rest LF || decimal_line rest)
  end.

Fixpoint strip_newline (s : string) : option string :=
  match s with
  | EmptyString => None
  | String c rest =>
      if String.eqb rest EmptyString
      then (if Ascii.eqb c (ascii_of_nat 10) then Some EmptyString else None)
      else option_map (String c) (strip_newline rest)
  end.

(** Reading a line of output back as a number. *)
Definition parse_line (s : string) : option Z :=
  match strip_newline s with
  | Some d => option_map (fun u => Z.of_N (N.of_uint u)) (NilZero.uint_of_string d)
  | None => None
  end.

(** ** The kernel [k] (lines 151-175) *)

(** Line 9. *)
Definition ITERATION : Z := 5.

Inductive Buffer := A0 | A1.

(** Device memory: the two buffers the kernel receives. *)
Record Mem := { a0 : list Z; a1 : list Z }.

(** What a thread does that is visible outside it. *)
Inductive Event :=
| EvClock (c : Z)
| EvLoad (buf : Buffer) (idx : nat) (v : Z)
| EvStore (buf : Buffer) (idx : nat) (v : Z)
| EvPrintf (line : string).

(** A launch [k<<<gridDim, blockDim>>>(a0, a1, start_idx, sm_chosen)] on a
    device: the build the kernel was compiled for, the kernel arguments,
    and what the hardware answers (where each block is placed, what the
    cycle counter reads). *)
Record Launch := {
  build : Build;
  gridDim_x : nat;
  blockDim_x : nat;
  start_idx : Z;
  sm_chosen : Z;
  placement : nat -> Regs;
  clock : nat -> nat -> Z
}.

Definition nthreads (L : Launch) : nat := (gridDim_x L * blockDim_x L)%nat.
Definition blockIdx_x (L : Launch) (g : nat) : nat := (g / blockDim_x L)%nat.
Definition threadIdx_x (L : Launch) (g : nat) : nat := (g mod blockDim_x L)%nat.

(** The identity of the compute unit block [b] runs on. *)
Definition group_identity (L : Launch) (b : nat) : Z :=
  get_smid (build L) (placement L b).

(** The identity thread [g] reads at line 153. *)
Definition sm_id (L : Launch) (g : nat) : Z :=
  group_identity L (blockIdx_x L g).

(** The guard of line 156. *)
Definition selected (L : Launch) (g : nat) : bool :=
  (sm_id L g =? sm_chosen L) && (threadIdx_x L g =? 0)%nat.

(** The element of [a0] the kernel addresses. *)
Definition target_index (L : Launch) : nat := Z.to_nat (start_idx L).

(** Where a thread stands in [k], with the local variables that are live
    there.  [n] counts the thread's reads of the cycle counter so far. *)
Inductive Local :=
| AtEntry
| AtLoop (i : Z) (n : nat)
| AtStart (i : Z) (n : nat)
| AtLoadA1 (i : Z) (n : nat) (start : Z)
| AtLoadA0 (i : Z) (n : nat) (start rhs : Z)
| AtStore (i : Z) (n : nat) (start rhs lhs : Z)
| AtLatency (i : Z) (n : nat) (start : Z)
| AtPrintf (i : Z) (n : nat) (latency : Z)
| AtExit
| AtFault.

(** The body of [k], one step of thread [g] at a time.  An access outside
    a buffer is undefined behaviour: the thread stops in [AtFault]. *)
Definition k_step (L : Launch) (g : nat) (l : Local) (m : Mem)
  : Local * Mem * list Event :=
  match l with
  | AtEntry =>                                               (* lines 153, 156 *)
      if selected L g then (AtLoop 0 0, m, []) else (AtExit, m, [])
  | AtLoop i n =>                                            (* line 159 *)
      if i <? ITERATION then (AtStart i n, m, []) else (AtExit, m, [])
  | AtStart i n =>                                           (* line 162 *)
      let c := clock L g n in
      (AtLoadA1 i (S n) (U32.wrap c), m, [EvClock c])
  | AtLoadA1 i n start =>                                    (* line 164: a1[0] *)
      match a1 m !! 0%nat with
      | Some v => (AtLoadA0 i n start v, m, [EvLoad A1 0 v])
      | None => (AtFault, m, [])
      end
  | AtLoadA0 i n start rhs =>                                (* line 164: a0[start_idx] *)
      match a0 m !! target_index L with
      | Some w => (AtStore i n start rhs w, m, [EvLoad A0 (target_index L) w])
      | None => (AtFault, m, [])
      end
  | AtStore i n start rhs lhs =>                             (* line 164: += *)
      let v := U32.add lhs rhs in
      (AtLatency i n start,
       {| a0 := <[target_index L := v]> (a0 m); a1 := a1 m |},
       [EvStore A0 (target_index L) v])
  | AtLatency i n start =>                                   (* line 166 *)
      let c := clock L g n in
      (AtPrintf i (S n) (U32.sub c start), m, [EvClock c])
  | AtPrintf i n latency =>                                  (* lines 168, 159 *)
      (AtLoop (U32.add i 1) n, m, [EvPrintf (printf_u latency)])
  | AtExit => (AtExit, m, [])
  | AtFault => (AtFault, m, [])
  end.

(** The whole launch: memory, every thread's position, and the events so
    far, each tagged with the thread that produced it. *)
Record State := {
  mem : Mem;
  locals : list Local;
  log : list (nat * Event)
}.

Definition init (L : Launch) (m : Mem) : State :=
  {| mem := m; locals := replicate (nthreads L) AtEntry; log := [] |}.

(** Thread [g] takes one step. *)
Definition step (L : Launch) (s : State) (g : nat) : State :=
  match locals s !! g with
  | None => s
  | Some l =>
      let '(l', m', evs) := k_step L g l (mem s) in
      {| mem := m'; locals := <[g := l']> (locals s);
         log := log s ++ map (pair g) evs |}
  end.

(** A schedule names the thread that steps next. *)
Definition run (L : Launch) (sched : list nat) (s : State) : State :=
  fold_left (step L) sched s.

(** No thread needs more steps than this to leave [k]. *)
Definition thread_steps : nat := 2 + 7 * Z.to_nat ITERATION.

(** After the schedule, every thread is given the steps it still needs:
    the launch runs to completion whatever the interleaving was. *)
Definition drain (L : Launch) : list nat :=
  flat_map (fun g => replicate thread_steps g) (seq 0 (nthreads L)).

Definition kernel (L : Launch) (m : Mem) (sched : list nat) : State :=
  run L (sched ++ drain L) (init L m).

Definition is_fault (l : Local) : bool :=
  match l with AtFault => true | _ => false end.

Definition faulted (s : State) : bool := existsb is_fault (locals s).

(** The lines the launch prints, in the order they were printed. *)
Definition stdout_of (evs : list (nat * Event)) : list string :=
  flat_map (fun te => match snd te with EvPrintf s => [s] | _ => [] end) evs.

(** The events of one thread. *)
Definition events_of (g : nat) (evs : list (nat * Event)) : list Event :=
  flat_map (fun te => if (fst te =? g)%nat then [snd te] else []) evs.

(** The blocks whose identity equals the target. *)
Definition matching_groups (L : Launch) : list nat :=
  filter (fun b => group_identity L b = sm_chosen L) (seq 0 (gridDim_x L)).

(** Thread [g] running alone for [n] steps. *)
Fixpoint solo (L : Launch) (g : nat) (n : nat) (l : Local) (m : Mem)
  : Local * Mem * list Event :=
  match n with
  | O => (l, m, [])
  | S n' =>
      let '(l1, m1, e1) := k_step L g l m in
      let '(l2, m2, e2) := solo L g n' l1 m1 in
      (l2, m2, e1 ++ e2)
  end.

(** An upper bound on the steps a thread still takes before it leaves [k]. *)
Definition remaining (l : Local) : nat :=
  let rounds i := (7 * Z.to_nat (ITERATION - i))%nat in
  match l with
  | AtEntry => thread_steps
  | AtLoop i _ => rounds i + 1
  | AtStart i _ => rounds i
  | AtLoadA1 i _ _ => rounds i - 1
  | AtLoadA0 i _ _ _ => rounds i - 2
  | AtStore i _ _ _ _ => rounds i - 3
  | AtLatency i _ _ => rounds i - 4
  | AtPrintf i _ _ => rounds i - 5
  | AtExit => 0
  | AtFault => 0
  end.

(** The timed block as the specification words it: what iteration [i] of
    thread [g] does, with [v] in [a1[0]] and [w] in [a0[start_idx]] when
    the launch starts. *)
Definition latency_of (L : Launch) (g : nat) (i : nat) : Z :=
  U32.sub (clock L g (2 * i + 1)) (clock L g (2 * i)).

Definition accumulate (v w : Z) (i : nat) : Z :=
  Nat.iter i (fun x => U32.add x v) w.

Definition iteration_events (L : Launch) (g : nat) (v w : Z) (i : nat) : list Event :=
  [ EvClock (clock L g (2 * i));
    EvLoad A1 0 v;
    EvLoad A0 (target_index L) (accumulate v w i);
    EvStore A0 (target_index L) (accumulate v w (S i));
    EvClock (clock L g (2 * i + 1));
    EvPrintf (printf_u (latency_of L g i)) ].

(** ** Invariants of a launch *)

(** A state property of a launch of [n] threads, made of a property of
    memory, a property of every thread's position and a property of every
    logged event. *)
Definition holds (n : nat) (Pm : Mem -> Prop) (Pl : nat -> Local -> Prop)
    (Pe : nat -> Event -> Prop) (s : State) : Prop :=
  length (locals s) = n
  /\ Pm (mem s)
  /\ (forall g l, locals s !! g = Some l -> Pl g l)
  /\ Forall (fun te => Pe (fst te) (snd te)) (log s).

(** A thread the guard rejects is at the entry or has left. *)
Definition silent_pos (L : Launch) (g : nat) (l : Local) : Prop :=
  selected L g = false -> l = AtEntry \/ l = AtExit.

(** Every event comes from a launched thread the guard selects, and every
    store goes to [a0[start_idx]]. *)
Definition by_leader_at_target (L : Launch) (g : nat) (e : Event) : Prop :=
  (g < nthreads L)%nat
  /\ selected L g = true
  /\ forall buf idx v, e = EvStore buf idx v -> buf = A0 /\ idx = target_index L.

(** Two buffers that can differ at index [idx] only. *)
Definition same_except (idx : nat) (l l' : list Z) : Prop :=
  length l' = length l /\ forall j, j <> idx -> l' !! j = l !! j.

(** [a1] is as in [m0], and [a0] too except at [start_idx]. *)
Definition frame (L : Launch) (m0 m : Mem) : Prop :=
  a1 m = a1 m0 /\ same_except (target_index L) (a0 m0) (a0 m).

(** Both accesses of line 164 fall inside their buffer. *)
Definition in_bounds (L : Launch) (m : Mem) : Prop :=
  (target_index L < length (a0 m))%nat /\ (0 < length (a1 m))%nat.

(** The loop counter stays within the iteration count. *)
Definition loop_bounds (l : Local) : Prop :=
  match l with
  | AtEntry | AtExit | AtFault => True
  | AtLoop i _ => 0 <= i <= ITERATION
  | AtStart i _ | AtLoadA1 i _ _ | AtLoadA0 i _ _ _ | AtStore i _ _ _ _
  | AtLatency i _ _ | AtPrintf i _ _ => 0 <= i < ITERATION
  end.

(** Every thread's loop counter is within bounds. *)
Definition bounded (L : Launch) : State -> Prop :=
  holds (nthreads L) (fun _ => True) (fun _ => loop_bounds) (fun _ _ => True).

(** A thread that takes no further step. *)
Definition stopped (l : Local) : Prop := l = AtExit \/ l = AtFault.

(** The buffers keep their lengths. *)
Definition sized (m0 m : Mem) : Prop :=
  length (a0 m) = length (a0 m0) /\ length (a1 m) = length (a1 m0).

(** The buffers keep their lengths and no thread has faulted. *)
Definition safe (L : Launch) (m0 : Mem) : State -> Prop :=
  holds (nthreads L) (sized m0) (fun _ l => l <> AtFault) (fun _ _ => True).

(** The positions a thread passes before its first read of the cycle
    counter. *)
Definition before_first_event (l : Local) : Prop :=
  l = AtEntry \/ l = AtLoop 0 0 \/ l = AtStart 0 0.

(** A selected thread that has gone past its first read of the cycle
    counter has logged an event. *)
Definition started (L : Launch) (s : State) : Prop :=
  forall g l, locals s !! g = Some l -> selected L g = true ->
    ~ before_first_event l -> events_of g (log s) <> [].

(** Thread [g0] is the only one the guard selects. *)
Definition only_leader (L : Launch) (g0 : nat) : Prop :=
  forall g, (g < nthreads L)%nat -> selected L g = true -> g = g0.

(** The addend a thread holds is zero and the value it is about to store
    is the one [a0[start_idx]] already has. *)
Definition adds_nothing (w : Z) (l : Local) : Prop :=
  match l with
  | AtLoadA0 _ _ _ rhs => rhs = 0
  | AtStore _ _ _ rhs lhs => rhs = 0 /\ lhs = w
  | _ => True
  end.

(** A load of [a1] reads 0; a load of [a0] reads [w] and a store writes
    [w] back. *)
Definition loads_and_stores_keep (w : Z) (e : Event) : Prop :=
  match e with
  | EvLoad A1 _ v => v = 0
  | EvLoad A0 _ v => v = w
  | EvStore _ _ v => v = w
  | _ => True
  end.

(** ** A small launch to run the definitions on *)

(** A GCN build: none of the target macros is defined. *)
Definition gcn : Build :=
  {| __GFX10__ := false; __GFX11__ := false; __AMDGCN_CUMODE__ := false;
     __gfx908__ := false; __gfx90a__ := false; __gfx940__ := false;
     __gfx941__ := false; __gfx942__ := false |}.

(** Block [b] is placed on compute unit [b] of shader engine 0: [CU_ID]
    sits in bits 11:8 of [HW_ID]. *)
Definition one_block_per_unit (b : nat) : Regs :=
  fun reg => if reg =? 4 then Z.shiftl (Z.of_nat b) 8 else 0.

(** Three blocks of two threads; the target is unit 2. *)
Definition small_launch : Launch :=
  {| build := gcn; gridDim_x := 3; blockDim_x := 2;
     start_idx := 1; sm_chosen := 2;
     placement := one_block_per_unit;
     clock := fun g n => 1000 + 40 * Z.of_nat n |}.

Definition small_mem : Mem := {| a0 := [10; 20; 30]; a1 := [7; 8] |}.

(** ** The host program [main] (lines 177-213) *)

(** Lines 6-8. *)
Definition NUM_SM : nat := 120.
Definition BLOCK_SIZE : nat := 64.
Definition S_SIZE : Z := ((8 * 1024) * 1024) / 16.

Definition sizeof_unsigned_int : Z := 4.

(** [sizeof(unsigned int) * S_SIZE], with the macro expanded as the
    preprocessor does (the macro body has no outer parentheses). *)
Definition buffer_bytes : Z := sizeof_unsigned_int * ((8 * 1024) * 1024) / 16.

Definition INT_MIN : Z := - 2 ^ 31.
Definition INT_MAX : Z := 2 ^ 31 - 1.

Definition hipSuccess : Z := 0.
Definition __FILE__ : string := "latency.cpp".

(** [atoi]: optional white space, an optional sign, then decimal digits up
    to the first character that is not one.  A value that does not fit
    [int] is undefined behaviour: [None]. *)
Definition isspace (c : ascii) : bool :=
  let n := nat_of_ascii c in ((n =? 32) || ((9 <=? n) && (n <=? 13)))%nat.

Fixpoint skip_spaces (s : string) : string :=
  match s with
  | String c rest => if isspace c then skip_spaces rest else s
  | EmptyString => EmptyString
  end.

Fixpoint digits_value (acc : Z) (s : string) : Z :=
  match s with
  | String c rest =>
      if is_digit c
      then digits_value (acc * 10 + (Z.of_nat (nat_of_ascii c) - 48)) rest
      else acc
  | EmptyString => acc
  end.

Definition atoi (s : string) : option Z :=
  let v :=
    match skip_spaces s with
    | String "-" rest => - digits_value 0 rest
    | String "+" rest => digits_value 0 rest
    | rest => digits_value 0 rest
    end in
  if (INT_MIN <=? v) && (v <=? INT_MAX) then Some v else None.

(** What the program does towards the outside, in program order. *)
Inductive Action :=
| HipSetDevice (device : Z)
| Malloc (bytes : Z)
| HipMalloc (buf : Buffer) (bytes : Z)
| HipMemcpyHtoD (buf : Buffer) (data : list Z) (bytes : Z)
| LaunchKernel (grid block : nat) (start_idx sm_chosen : Z)
| HipDeviceSynchronize
| HipGetLastError (e : Z)
| Printf (line : string)
| Free
| HipFree (buf : Buffer)
| Exit (status : Z)
| Return (status : Z).

(** What the program does not decide: the device it runs on, and the
    answers of the runtime and of the C library. *)
Record Env := {
  target : Build;
  device_placement : nat -> Regs;
  cycle_counter : nat -> nat -> Z;
  schedule : list nat;
  last_error : nat -> Z;        (* what the n-th call of hipGetLastError returns *)
  error_string : Z -> string;   (* hipGetErrorString *)
  malloc_ok : bool;             (* whether malloc returns a block *)
  host_garbage : nat -> Z;      (* contents of fresh host memory *)
  device_garbage : Buffer -> nat -> Z   (* contents of fresh device memory *)
}.

Record Host := {
  actions : list Action;
  stdout : list string;
  checks : nat;                 (* calls of hipGetLastError so far *)
  h_arr : option (list Z);      (* [None]: a null pointer *)
  dev : Mem;                    (* [d_a0] and [d_a1] *)
  pending : option Launch;      (* a launch the device has not completed *)
  device_log : list (nat * Event)
}.

Inductive Outcome :=
| Exited (status : Z)
| Returned (status : Z)
| Undefined.

Inductive Result (A : Type) :=
| Next (a : A) (h : Host)
| Stop (o : Outcome) (h : Host).

Arguments Next {A} a h.
Arguments Stop {A} o h.

(** Computations of the host: state passing, with an early end of the
    process ([exit], or undefined behaviour). *)
Definition M (A : Type) : Type := Host -> Result A.

Definition ret {A} (a : A) : M A := fun h => Next a h.

Definition bind {A B} (c : M A) (k : A -> M B) : M B :=
  fun h => match c h with
           | Next a h' => k a h'
           | Stop o h' => Stop o h'
           end.

Declare Scope host_scope.
Delimit Scope host_scope with host.
Notation "x <- c ;; k" := (bind c (fun x => k))
  (at level 100, c at next level, right associativity) : host_scope.
Notation "c ;; k" := (bind c (fun _ => k))
  (at level 100, right associativity) : host_scope.

Definition act (a : Action) (h : Host) : Host :=
  {| actions := actions h ++ [a]; stdout := stdout h; checks := checks h;
     h_arr := h_arr h; dev := dev h; pending := pending h;
     device_log := device_log h |}.

Definition put (lines : list string) (h : Host) : Host :=
  {| actions := actions h; stdout := stdout h ++ lines; checks := checks h;
     h_arr := h_arr h; dev := dev h; pending := pending h;
     device_log := device_log h |}.

Definition checked (h : Host) : Host :=
  {| actions := actions h; stdout := stdout h; checks := S (checks h);
     h_arr := h_arr h; dev := dev h; pending := pending h;
     device_log := device_log h |}.

Definition with_h_arr (a : option (list Z)) (h : Host) : Host :=
  {| actions := actions h; stdout := stdout h; checks := checks h;
     h_arr := a; dev := dev h; pending := pending h;
     device_log := device_log h |}.

Definition with_dev (m : Mem) (h : Host) : Host :=
  {| actions := actions h; stdout := stdout h; checks := checks h;
     h_arr := h_arr h; dev := m; pending := pending h;
     device_log := device_log h |}.

Definition with_pending (p : option Launch) (h : Host) : Host :=
  {| actions := actions h; stdout := stdout h; checks := checks h;
     h_arr := h_arr h; dev := dev h; pending := p;
     device_log := device_log h |}.

Definition with_device_log (l : list (nat * Event)) (h : Host) : Host :=
  {| actions := actions h; stdout := stdout h; checks := checks h;
     h_arr := h_arr h; dev := dev h; pending := pending h;
     device_log := l |}.

Definition emit (a : Action) : M unit := fun h => Next tt (act a h).

Definition with_buffer (buf : Buffer) (data : list Z) (m : Mem) : Mem :=
  match buf with
  | A0 => {| a0 := data; a1 := a1 m |}
  | A1 => {| a0 := a0 m; a1 := data |}
  end.

Definition buffer (buf : Buffer) (m : Mem) : list Z :=
  match buf with A0 => a0 m | A1 => a1 m end.

(** [n] elements of memory nobody has written yet. *)
Definition fresh (garbage : nat -> Z) (n : nat) : list Z := map garbage (seq 0 n).

(** [0, 1, ..., n-1]. *)
Definition iota (n : nat) : list Z := map Z.of_nat (seq 0 n).

(** Lines 13-19, at source line [line]. *)
Definition failure_message (line : Z) (err : string) : string :=
  ("HIP failure " ++ __FILE__ ++ ":" ++ decimal line ++ ": '" ++ err ++ "'" ++ LF)%string.

Definition hipCheckError (E : Env) (line : Z) : M unit :=
  fun h =>
    let e := last_error E (checks h) in
    let h := checked (act (HipGetLastError e) h) in
    if e =? hipSuccess then Next tt h
    else
      let msg := failure_message line (error_string E e) in
      Stop (Exited 0) (act (Exit 0) (put [msg] (act (Printf msg) h))).

(** [argv[i]]; reading an argument that is not there is undefined. *)
Definition arg (argv : list string) (i : nat) : M string :=
  fun h => match argv !! i with
           | Some s => Next s h
           | None => Stop Undefined h
           end.

Definition call_atoi (s : string) : M Z :=
  fun h => match atoi s with
           | Some n => Next n h
           | None => Stop Undefined h
           end.

(** Multiplication of two [int]: overflow is undefined. *)
Definition int_mul (x y : Z) : M Z :=
  fun h => let p := x * y in
           if (INT_MIN <=? p) && (p <=? INT_MAX) then Next p h
           else Stop Undefined h.

Definition malloc (E : Env) (bytes : Z) : M unit :=
  fun h =>
    let block := if malloc_ok E
                 then Some (fresh (host_garbage E) (Z.to_nat (bytes / sizeof_unsigned_int)))
                 else None in
    Next tt (with_h_arr block (act (Malloc bytes) h)).

Definition hipMalloc (E : Env) (buf : Buffer) (bytes : Z) : M unit :=
  fun h =>
    let block := fresh (device_garbage E buf) (Z.to_nat (bytes / sizeof_unsigned_int)) in
    Next tt (with_dev (with_buffer buf block (dev h)) (act (HipMalloc buf bytes) h)).

(** Lines 193-195. *)
Definition fill_loop (a : list Z) : list Z :=
  fold_left (fun a i => <[i := U32.wrap (Z.of_nat i)]> a) (seq 0 (Z.to_nat S_SIZE)) a.

Definition fill : M unit :=
  fun h => match h_arr h with
           | Some a => Next tt (with_h_arr (Some (fill_loop a)) h)
           | None => Stop Undefined h
           end.

(** The first [n] elements of [dst] replaced by those of [src]. *)
Definition copy (n : nat) (src dst : list Z) : list Z := take n src ++ drop n dst.

Definition hipMemcpy (buf : Buffer) (bytes : Z) : M unit :=
  fun h => match h_arr h with
           | Some a =>
               let n := Z.to_nat (bytes / sizeof_unsigned_int) in
               let data := copy n a (buffer buf (dev h)) in
               Next tt (with_dev (with_buffer buf data (dev h))
                          (act (HipMemcpyHtoD buf (take n a) bytes) h))
           | None => Stop Undefined h
           end.

(** Line 202: the launch is queued; the arguments become [unsigned int]. *)
Definition launch_k (E : Env) (grid block : nat) (start_idx sm_chosen : Z) : M unit :=
  fun h =>
    let L := {| build := target E; gridDim_x := grid; blockDim_x := block;
                start_idx := U32.wrap start_idx; sm_chosen := U32.wrap sm_chosen;
                placement := device_placement E; clock := cycle_counter E |} in
    Next tt (with_pending (Some L)
               (act (LaunchKernel grid block (U32.wrap start_idx) (U32.wrap sm_chosen)) h)).

(** Line 204: the queued launch runs to completion, and what it printed
    reaches the standard output.  A faulting kernel is undefined
    behaviour. *)
Definition hipDeviceSynchronize (E : Env) : M unit :=
  fun h =>
    let h := act HipDeviceSynchronize h in
    match pending h with
    | None => Next tt h
    | Some L =>
        let s := kernel L (dev h) (schedule E) in
        if faulted s then Stop Undefined h
        else Next tt (with_pending None
                        (with_device_log (log s)
                           (put (stdout_of (log s)) (with_dev (mem s) h))))
    end.

Definition free : M unit :=
  fun h => Next tt (with_h_arr None (act Free h)).

(** The model keeps the contents of a released device buffer, so that they
    can be read off the final state. *)
Definition hipFree (buf : Buffer) : M unit := emit (HipFree buf).

Open Scope host_scope.

(** Lines 186-212: [main] once [start_idx] and [sm_chosen] are set. *)
Definition main_body (E : Env) (start_idx sm_chosen : Z) : M Z :=
  malloc E buffer_bytes ;;
  hipMalloc E A0 buffer_bytes ;;
  hipCheckError E 189 ;;
  hipMalloc E A1 buffer_bytes ;;
  hipCheckError E 191 ;;
  fill ;;
  hipMemcpy A0 buffer_bytes ;;
  hipCheckError E 198 ;;
  hipMemcpy A1 buffer_bytes ;;
  hipCheckError E 200 ;;
  launch_k E NUM_SM BLOCK_SIZE start_idx sm_chosen ;;
  hipCheckError E 203 ;;
  hipDeviceSynchronize E ;;
  hipCheckError E 205 ;;
  free ;;
  hipFree A0 ;;
  hipFree A1 ;;
  ret 0.

(** Lines 177-213.  Lines 182-184 select the device and read the two
    arguments; [main_body] is the rest. *)
Definition main (E : Env) (argv : list string) : M Z :=
  emit (HipSetDevice 0) ;;
  s1 <- arg argv 1 ;;
  n1 <- call_atoi s1 ;;
  start_idx <- int_mul n1 64 ;;
  s2 <- arg argv 2 ;;
  sm_chosen <- call_atoi s2 ;;
  main_body E start_idx sm_chosen.

Close Scope host_scope.

Definition start_of_process : Host :=
  {| actions := []; stdout := []; checks := 0; h_arr := None;
     dev := {| a0 := []; a1 := [] |}; pending := None; device_log := [] |}.

Record Run := { outcome : Outcome; final : Host }.

Definition run_main (E : Env) (argv : list string) : Run :=
  match main E argv start_of_process with
  | Next status h => {| outcome := Returned status; final := act (Return status) h |}
  | Stop o h => {| outcome := o; final := h |}
  end.

Definition exit_status (o : Outcome) : option Z :=
  match o with
  | Exited status => Some status
  | Returned status => Some status
  | Undefined => None
  end.

(** The source lines of the six error checks, in program order. *)
Definition check_lines : list Z := [189; 191; 198; 200; 203; 205].

(** The device calls the program checks: allocation, copy, launch and
    synchronization. *)
Definition is_device_call (a : Action) : bool :=
  match a with
  | HipMalloc _ _ | HipMemcpyHtoD _ _ _ | LaunchKernel _ _ _ _
  | HipDeviceSynchronize => true
  | _ => false
  end.

(** Every allocation, copy, launch and synchronization is followed at once
    by a call of [hipGetLastError]. *)
Fixpoint each_call_checked (l : list Action) : bool :=
  match l with
  | [] => true
  | a :: rest =>
      (if is_device_call a
       then match rest with HipGetLastError _ :: _ => true | _ => false end
       else true)
      && each_call_checked rest
  end.

(** The actions of a run in which no check fails. *)
Definition clean_actions (start_idx sm_chosen : Z) : list Action :=
  [ HipSetDevice 0;
    Malloc buffer_bytes;
    HipMalloc A0 buffer_bytes; HipGetLastError hipSuccess;
    HipMalloc A1 buffer_bytes; HipGetLastError hipSuccess;
    HipMemcpyHtoD A0 (iota (Z.to_nat S_SIZE)) buffer_bytes; HipGetLastError hipSuccess;
    HipMemcpyHtoD A1 (iota (Z.to_nat S_SIZE)) buffer_bytes; HipGetLastError hipSuccess;
    LaunchKernel NUM_SM BLOCK_SIZE start_idx sm_chosen; HipGetLastError hipSuccess;
    HipDeviceSynchronize; HipGetLastError hipSuccess;
    Free; HipFree A0; HipFree A1;
    Return 0 ].

(** The launch [main] makes. *)
Definition launch_of (E : Env) (start_idx sm_chosen : Z) : Launch :=
  {| build := target E; gridDim_x := NUM_SM; blockDim_x := BLOCK_SIZE;
     start_idx := U32.wrap start_idx; sm_chosen := U32.wrap sm_chosen;
     placement := device_placement E; clock := cycle_counter E |}.

(** A specification of a host computation: from a state satisfying [P],
    it goes on with a value and state satisfying [Q], or ends the process
    with an outcome and state satisfying [R]. *)
Definition triple {A} (P : Host -> Prop) (c : M A)
    (Q : A -> Host -> Prop) (R : Outcome -> Host -> Prop) : Prop :=
  forall h, P h ->
    match c h with
    | Next a h' => Q a h'
    | Stop o h' => R o h'
    end.

(** The process ended through [exit(0)], or in undefined behaviour. *)
Definition ends_zero (o : Outcome) : Prop := o = Exited 0 \/ o = Undefined.

(** Both device buffers after the copies of lines 197 and 199. *)
Definition iota_mem : Mem :=
  {| a0 := iota (Z.to_nat S_SIZE); a1 := iota (Z.to_nat S_SIZE) |}.

(** An environment in which nothing fails, on a GCN device that places
    block [b] on unit [b]. *)
Definition quiet_env : Env :=
  {| target := gcn;
     device_placement := one_block_per_unit;
     cycle_counter := fun g n => 1000 + 40 * Z.of_nat n;
     schedule := [];
     last_error := fun _ => hipSuccess;
     error_string := fun _ => "no error"%string;
     malloc_ok := true;
     host_garbage := fun _ => 0;
     device_garbage := fun _ _ => 0 |}.

(** The same, except that the [k]-th check reports error [e]. *)
Definition failing_env (k : nat) (e : Z) (msg : string) : Env :=
  {| target := gcn;
     device_placement := one_block_per_unit;
     cycle_counter := fun g n => 1000 + 40 * Z.of_nat n;
     schedule := [];
     last_error := fun j => if (j =? k)%nat then e else hipSuccess;
     error_string := fun _ => msg;
     malloc_ok := true;
     host_garbage := fun _ => 0;
     device_garbage := fun _ _ => 0 |}.

(** A command line: start-index unit 3, target unit 2. *)
Definition small_argv : list string := ["./hip-latency"; "3"; "2"]%string.

(** ** What a thread has done *)

(** One pass of thread [g] through the timed block (lines 162-168), its
    [i]-th, in which it loaded [fst vw] from [a1[0]] and [snd vw] from
    [a0[start_idx]]. *)
Definition timed_block (L : Launch) (g i : nat) (vw : Z * Z) : list Event :=
  [ EvClock (clock L g (2 * i));
    EvLoad A1 0 (fst vw);
    EvLoad A0 (target_index L) (snd vw);
    EvStore A0 (target_index L) (U32.add (snd vw) (fst vw));
    EvClock (clock L g (2 * i + 1));
    EvPrintf (printf_u (latency_of L g i)) ].

(** Successive passes through the timed block, one for each pair of
    loaded values. *)
Definition timed_blocks (L : Launch) (g : nat) (vws : list (Z * Z)) : list Event :=
  concat (imap (timed_block L g) vws).

(** What thread [g] has done when it stands at [l]: the passes it has
    completed, and the part of the current pass that lies before [l]. *)
Definition in_progress (L : Launch) (g : nat) (l : Local) (evs : list Event) : Prop :=
  match l with
  | AtEntry => evs = []
  | AtFault => True
  | AtExit =>
      if selected L g
      then exists vws, length vws = Z.to_nat ITERATION
                       /\ evs = timed_blocks L g vws
      else evs = []
  | AtLoop i n | AtStart i n =>
      exists vws, i = Z.of_nat (length vws) /\ n = (2 * length vws)%nat
                  /\ evs = timed_blocks L g vws
  | AtLoadA1 i n start =>
      exists vws, i = Z.of_nat (length vws) /\ n = (2 * length vws + 1)%nat
                  /\ start = U32.wrap (clock L g (2 * length vws))
                  /\ evs = timed_blocks L g vws
                           ++ take 1 (timed_block L g (length vws) (0, 0))
  | AtLoadA0 i n start rhs =>
      exists vws, i = Z.of_nat (length vws) /\ n = (2 * length vws + 1)%nat
                  /\ start = U32.wrap (clock L g (2 * length vws))
                  /\ evs = timed_blocks L g vws
                           ++ take 2 (timed_block L g (length vws) (rhs, 0))
  | AtStore i n start rhs lhs =>
      exists vws, i = Z.of_nat (length vws) /\ n = (2 * length vws + 1)%nat
                  /\ start = U32.wrap (clock L g (2 * length vws))
                  /\ evs = timed_blocks L g vws
                           ++ take 3 (timed_block L g (length vws) (rhs, lhs))
  | AtLatency i n start =>
      exists vws vw, i = Z.of_nat (length vws) /\ n = (2 * length vws + 1)%nat
                  /\ start = U32.wrap (clock L g (2 * length vws))
                  /\ evs = timed_blocks L g vws
                           ++ take 4 (timed_block L g (length vws) vw)
  | AtPrintf i n latency =>
      exists vws vw, i = Z.of_nat (length vws) /\ n = (2 * length vws + 2)%nat
                  /\ latency = latency_of L g (length vws)
                  /\ evs = timed_blocks L g vws
                           ++ take 5 (timed_block L g (length vws) vw)
  end.

(** Every thread's events are those its position accounts for, no thread
    has made an undefined access, and a thread is inside the loop only if
    the guard selected it. *)
Definition traced (L : Launch) (s : State) : Prop :=
  forall g l, locals s !! g = Some l ->
    in_progress L g l (events_of g (log s))
    /\ loop_bounds l /\ l <> AtFault /\ silent_pos L g l.

(** ** Further vocabulary *)

(** The number of bits the identity of a build takes: the widths of the
    fields it packs, added up. *)
Definition identity_width (b : Build) (f : Fields) : Z :=
  fold_right (fun vw acc => snd vw + acc) 0 (constituents b f).

(** Fields written side by side, the first one in the most significant
    position. *)
Definition side_by_side (l : list (Z * Z)) : Z :=
  fold_left (fun acc vw => acc * 2 ^ snd vw + fst vw) l 0.

(** A thread that has not got past the two loads of its first iteration;
    a thread the guard selects is not at the exit, and a thread sits
    before the load of [a0] only if that load will fail in [m]. *)
Definition stuck_before_store (L : Launch) (m : Mem) (g : nat) (l : Local) : Prop :=
  match l with
  | AtEntry | AtFault => True
  | AtExit => selected L g = false
  | AtLoop i _ | AtStart i _ | AtLoadA1 i _ _ => i = 0
  | AtLoadA0 i _ _ _ => i = 0 /\ a0 m !! target_index L = None
  | AtStore _ _ _ _ _ | AtLatency _ _ _ | AtPrintf _ _ _ => False
  end.

(** Reads of the cycle counter and loads, but no store and no output. *)
Definition reads_only (e : Event) : Prop :=
  match e with
  | EvStore _ _ _ | EvPrintf _ => False
  | EvClock _ | EvLoad _ _ _ => True
  end.

(** The lines among a list of events. *)
Definition lines_in (evs : list Event) : nat :=
  length (flat_map (fun e => match e with EvPrintf s => [s] | _ => [] end) evs).

(** The lines thread [g] has printed. *)
Definition lines_by (g : nat) (evs : list (nat * Event)) : nat :=
  lines_in (events_of g evs).

(** The lines a thread at position [l] has printed: one per completed
    iteration. *)
Definition lines_done (L : Launch) (g : nat) (l : Local) : nat :=
  match l with
  | AtEntry | AtFault => 0
  | AtExit => if selected L g then Z.to_nat ITERATION else 0
  | AtLoop i _ | AtStart i _ | AtLoadA1 i _ _ | AtLoadA0 i _ _ _
  | AtStore i _ _ _ _ | AtLatency i _ _ | AtPrintf i _ _ => Z.to_nat i
  end.

(** Every thread has printed what its position says, and is inside the
    loop only if the guard selected it. *)
Definition lines_counted (L : Launch) (s : State) : Prop :=
  forall g l, locals s !! g = Some l ->
    lines_by g (log s) = lines_done L g l
    /\ loop_bounds l /\ l <> AtFault /\ silent_pos L g l.

(** The threads of a launch the guard selects. *)
Definition leaders (L : Launch) : list nat :=
  filter (fun g => selected L g = true) (seq 0 (nthreads L)).

(** A command line with two negative arguments. *)
Definition negative_argv : list string := ["./hip-latency"; "-1"; "-1"]%string.

(** Two blocks of two threads, both placed on unit 2, the target. *)
Definition shared_unit_launch : Launch :=
  {| build := gcn; gridDim_x := 2; blockDim_x := 2;
     start_idx := 1; sm_chosen := 2;
     placement := fun _ => one_block_per_unit 2;
     clock := fun g n => 1000 + 40 * Z.of_nat n |}.

(** The calls that give memory back. *)
Definition releases (a : Action) : bool :=
  match a with
  | Free | HipFree _ => true
  | _ => false
  end.

(** An environment in which [malloc] returns a null pointer. *)
Definition no_memory_env : Env :=
  {| target := gcn;
     device_placement := one_block_per_unit;
     cycle_counter := fun g n => 1000 + 40 * Z.of_nat n;
     schedule := [];
     last_error := fun _ => hipSuccess;
     error_string := fun _ => "no error"%string;
     malloc_ok := false;
     host_garbage := fun _ => 0;
     device_garbage := fun _ _ => 0 |}.

(** A line that is decimal digits and a newline, and reads back as a
    32-bit unsigned number. *)
Definition numeric_line (s : string) : Prop :=
  decimal_line s = true /\ exists x, 0 <= x < 2 ^ 32 /\ parse_line s = Some x.

(** The latency a thread is about to print is a 32-bit unsigned number. *)
Definition latency_in_range (l : Local) : Prop :=
  match l with
  | AtPrintf _ _ latency => 0 <= latency < 2 ^ 32
  | _ => True
  end.

(** An event that is not a line, or is a numeric line. *)
Definition prints_numeric (e : Event) : Prop :=
  match e with
  | EvPrintf s => numeric_line s
  | _ => True
  end.

(** * Properties *)

(** ** The locator: packing is injective *)

Lemma shl_lor_small x y a k :
  0 <= x < 2 ^ a -> 0 <= y < 2 ^ k -> 0 <= a -> 0 <= k -> a + k <= 32 ->
  Z.lor (U32.shl x k) y = x * 2 ^ k + y /\ 0 <= x * 2 ^ k + y < 2 ^ (a + k).
Proof.
  intros Hx Hy Ha Hk Hak.
  assert (Hp : 2 ^ (a + k) = 2 ^ a * 2 ^ k) by (apply Z.pow_add_r; lia).
  assert (Hk0 : 0 < 2 ^ k) by (apply Z.pow_pos_nonneg; lia).
  assert (Hb : 0 <= x * 2 ^ k + y < 2 ^ (a + k)) by nia.
  split; [|exact Hb].
  unfold U32.shl, U32.wrap, U32.modulus.
  rewrite Z.shiftl_mul_pow2 by lia.
  assert (Hle : 2 ^ (a + k) <= 2 ^ 32) by (apply Z.pow_le_mono_r; lia).
  rewrite Z.mod_small by nia.
  rewrite <- Z.shiftl_mul_pow2 by lia.
  assert (Hland : Z.land (Z.shiftl x k) y = 0).
  { apply Z.bits_inj'; intros n Hn; rewrite Z.land_spec, Z.bits_0.
    destruct (Z.lt_ge_cases n k) as [Hlt|Hge].
    - rewrite Z.shiftl_spec_low by lia; reflexivity.
    - destruct (Z.eq_dec y 0) as [->|Hy0]; [rewrite Z.bits_0; apply andb_false_r|].
      rewrite (Z.bits_above_log2 y n), andb_false_r; [reflexivity|lia|].
      apply Z.lt_le_trans with k; [|lia].
      apply Z.log2_lt_pow2; lia. }
  rewrite <- (Z.lxor_lor _ _ Hland).
  symmetry; apply Z.add_nocarry_lxor; exact Hland.
Qed.

Lemma shl_lor_arith x y k :
  0 <= x -> 0 <= y < 2 ^ k -> 0 <= k -> x * 2 ^ k + y < 2 ^ 32 ->
  Z.lor (U32.shl x k) y = x * 2 ^ k + y.
Proof.
  intros Hx Hy Hk Hb.
  assert (Hk0 : 0 < 2 ^ k) by (apply Z.pow_pos_nonneg; lia).
  destruct (Z_lt_le_dec k 32) as [Hlt|Hge].
  - assert (Hp : 2 ^ 32 = 2 ^ (32 - k) * 2 ^ k)
      by (rewrite <- Z.pow_add_r by lia; f_equal; lia).
    assert (Hxa : 0 <= x < 2 ^ (32 - k)) by nia.
    destruct (shl_lor_small x y (32 - k) k Hxa Hy) as [E _]; [lia..|exact E].
  - assert (2 ^ 32 <= 2 ^ k) by (apply Z.pow_le_mono_r; lia).
    assert (x = 0) by nia. subst x.
    unfold U32.shl, U32.wrap. rewrite Z.shiftl_0_l. reflexivity.
Qed.

Lemma shl_add_arith x y k :
  0 <= x -> 0 <= y -> 0 <= k -> x * 2 ^ k + y < 2 ^ 32 ->
  U32.add (U32.shl x k) y = x * 2 ^ k + y.
Proof.
  intros Hx Hy Hk Hb.
  assert (Hk0 : 0 < 2 ^ k) by (apply Z.pow_pos_nonneg; lia).
  unfold U32.add, U32.shl, U32.wrap, U32.modulus.
  rewrite Z.shiftl_mul_pow2 by lia.
  rewrite (Z.mod_small (x * 2 ^ k)) by nia.
  apply Z.mod_small; nia.
Qed.

Ltac bounds_of H :=
  unfold legal, legalb in H; cbn in H;
  rewrite ?andb_true_iff, ?Z.leb_le, ?Z.ltb_lt in H.

Ltac pack_arith :=
  repeat match goal with
  | H : context [Z.lor (U32.shl ?x ?k) ?y] |- _ =>
      rewrite (shl_lor_arith x y k) in H by (cbn; lia)
  | H : context [U32.add (U32.shl ?x ?k) ?y] |- _ =>
      rewrite (shl_add_arith x y k) in H by (cbn; lia)
  end.

Lemma s_getreg_bound regs imm :
  0 <= s_getreg regs imm < 2 ^ (Z.land (Z.shiftr imm 11) 31 + 1).
Proof.
  unfold s_getreg.
  assert (0 <= Z.land (Z.shiftr imm 11) 31) by (apply Z.land_nonneg; lia).
  rewrite Z.land_ones by lia. apply Z.mod_pos_bound, Z.pow_pos_nonneg; lia.
Qed.

Lemma field_in_width regs sz off reg :
  Z.land (Z.shiftr (GETREG_IMMED (sz - 1) off reg) 11) 31 + 1 = sz ->
  (0 <=? s_getreg regs (GETREG_IMMED (sz - 1) off reg))
  && (s_getreg regs (GETREG_IMMED (sz - 1) off reg) <? 2 ^ sz) = true.
Proof.
  intros Hsz. pose proof (s_getreg_bound regs (GETREG_IMMED (sz - 1) off reg)) as Hb.
  rewrite Hsz in Hb. apply andb_true_iff. split; [apply Z.leb_le|apply Z.ltb_lt]; lia.
Qed.

Lemma read_fields_legal (b : Build) (regs : Regs) : legal b (read_fields b regs).
Proof.
  unfold legal, legalb, constituents, read_fields, HW_ID_CU_ID_SIZE,
    HW_ID_SE_ID_SIZE, HW_ID_SE_ID_OFFSET, HW_ID.
  destruct (rdna b), (gfx94x b), (__AMDGCN_CUMODE__ b),
    (__gfx908__ b || __gfx90a__ b || __GFX11__ b);
    cbn [forallb app fst snd se_id sa_id wgp_id cu_id xcc_id andb negb];
    rewrite ?field_in_width by reflexivity; reflexivity.
Qed.

(** C6.  The identity-packing code is injective: in every build, two legal
    combinations of the field values the build reads (each field within
    the bit width the build gives it) that are packed into the same
    integer are the same combination. *)
Theorem pack_injective (b : Build) (f1 f2 : Fields) :
  legal b f1 -> legal b f2 -> pack b f1 = pack b f2 ->
  constituents b f1 = constituents b f2.
Proof.
  unfold legal, legalb, pack, constituents, HW_ID_CU_ID_SIZE, HW_ID_SE_ID_SIZE,
    HW_ID_SA_ID_SIZE, HW_ID_WGP_ID_SIZE, XCC_ID_XCC_ID_SIZE.
  destruct f1 as [se1 sa1 wgp1 cu1 xcc1], f2 as [se2 sa2 wgp2 cu2 xcc2].
  destruct (rdna b), (gfx94x b), (__AMDGCN_CUMODE__ b),
    (__gfx908__ b || __gfx90a__ b || __GFX11__ b);
    cbn; intros L1 L2 E.
  all: rewrite ?andb_true_iff, ?Z.leb_le, ?Z.ltb_lt in L1, L2.
  all: pack_arith.
  all: repeat f_equal; lia.
Qed.

Lemma pack_injective_witness :
  constituents gcn {| se_id := 1; sa_id := 0; wgp_id := 0; cu_id := 5; xcc_id := 0 |}
  = constituents gcn {| se_id := 1; sa_id := 1; wgp_id := 3; cu_id := 5; xcc_id := 7 |}.
Proof.
  apply (pack_injective gcn); reflexivity.
Defined.

(** On a GCN build the identity is [SE_ID] in bits 5:4 and [CU_ID] in
    bits 3:0, as the comment at lines 104-108 says. *)
Example smid_gcn :
  __smid gcn (fun reg => if reg =? 4 then Z.lor (Z.shiftl 1 13) (Z.shiftl 5 8) else 0)
  = 21.
Proof. reflexivity. Qed.

(** On gfx942 the partition number comes first. *)
Example smid_gfx942 :
  __smid {| __GFX10__ := false; __GFX11__ := false; __AMDGCN_CUMODE__ := false;
            __gfx908__ := false; __gfx90a__ := false; __gfx940__ := false;
            __gfx941__ := false; __gfx942__ := true |}
    (fun reg => if reg =? 20 then 3
                else if reg =? 4 then Z.lor (Z.shiftl 2 13) (Z.shiftl 7 8)
                else 0)
  = 231.
Proof. reflexivity. Qed.

(** ** The kernel under every interleaving *)

Section Kernel.
Variable L : Launch.

Lemma run_app s1 s2 s : run L (s1 ++ s2) s = run L s2 (run L s1 s).
Proof. unfold run. apply fold_left_app. Qed.

Lemma run_cons g sched s : run L (g :: sched) s = run L sched (step L s g).
Proof. reflexivity. Qed.

Lemma run_invariant (I : State -> Prop) :
  (forall s g, I s -> I (step L s g)) ->
  forall sched s, I s -> I (run L sched s).
Proof.
  intros Hstep sched. induction sched as [|g sched IH]; intros s Hs; [exact Hs|].
  rewrite run_cons. apply IH, Hstep, Hs.
Qed.

Lemma length_locals_step s g : length (locals (step L s g)) = length (locals s).
Proof.
  unfold step. destruct (locals s !! g); [|done].
  destruct (k_step L g l (mem s)) as [[? ?] ?]. cbn. apply length_insert.
Qed.

Lemma length_locals_run sched s : length (locals (run L sched s)) = length (locals s).
Proof.
  revert s. induction sched as [|g sched IH]; intros s; [done|].
  rewrite run_cons, IH. apply length_locals_step.
Qed.

Lemma holds_step n Pm Pl Pe :
  (forall g l m l' m' evs, (g < n)%nat -> Pm m -> Pl g l ->
     k_step L g l m = (l', m', evs) ->
     Pm m' /\ Pl g l' /\ Forall (Pe g) evs) ->
  forall s g, holds n Pm Pl Pe s -> holds n Pm Pl Pe (step L s g).
Proof.
  intros Hloc s g (Hn & Hm & Hl & He).
  split; [by rewrite length_locals_step|]. unfold step.
  destruct (locals s !! g) as [l|] eqn:Hg; [|by repeat split].
  destruct (k_step L g l (mem s)) as [[l' m'] evs] eqn:Hs.
  assert (Hlt : (g < n)%nat) by (rewrite <- Hn; by eapply lookup_lt_Some).
  destruct (Hloc g l (mem s) l' m' evs Hlt Hm (Hl g l Hg) Hs) as (Hm' & Hl' & He').
  repeat split; cbn.
  - exact Hm'.
  - intros g' l0 Hg'. destruct (decide (g = g')) as [<-|Hne].
    + rewrite list_lookup_insert_eq in Hg' by (eapply lookup_lt_Some; eauto).
      by inversion Hg'; subst.
    + rewrite list_lookup_insert_ne in Hg' by done. eauto.
  - apply Forall_app; split; [exact He|].
    apply Forall_map. cbn. exact He'.
Qed.

Lemma holds_run n Pm Pl Pe :
  (forall g l m l' m' evs, (g < n)%nat -> Pm m -> Pl g l ->
     k_step L g l m = (l', m', evs) ->
     Pm m' /\ Pl g l' /\ Forall (Pe g) evs) ->
  forall sched s, holds n Pm Pl Pe s -> holds n Pm Pl Pe (run L sched s).
Proof. intros H. apply run_invariant, holds_step, H. Qed.

Lemma holds_init Pm Pl Pe m :
  Pm m -> (forall g, Pl g AtEntry) -> holds (nthreads L) Pm Pl Pe (init L m).
Proof.
  intros Hm Hl. repeat split; cbn; [apply length_replicate|exact Hm| |constructor].
  intros g l Hg. apply lookup_replicate in Hg as [-> _]. apply Hl.
Qed.

(** *** Threads the guard rejects *)

Lemma guard_local g l m l' m' evs :
  (g < nthreads L)%nat ->
  True -> silent_pos L g l -> k_step L g l m = (l', m', evs) ->
  True /\ silent_pos L g l' /\ Forall (by_leader_at_target L g) evs.
Proof.
  intros Hlt _ Hl Hs. unfold silent_pos, by_leader_at_target in *.
  destruct (selected L g) eqn:Hsel.
  - split; [done|]. split; [done|].
    destruct l; cbn in Hs; rewrite ?Hsel in Hs;
      repeat case_match; simplify_eq; repeat constructor; try done;
      intros; simplify_eq; done.
  - destruct (Hl eq_refl) as [-> | ->]; cbn in Hs; rewrite ?Hsel in Hs;
      simplify_eq; repeat split; auto.
Qed.

(** *** The frame of the launch *)

Lemma same_except_refl idx l : same_except idx l l.
Proof. by split. Qed.

Lemma same_except_insert idx l l' v :
  same_except idx l l' -> same_except idx l (<[idx := v]> l').
Proof.
  intros [Hlen Hj]. split; [by rewrite length_insert|].
  intros j Hne. rewrite list_lookup_insert_ne by done. by apply Hj.
Qed.

Lemma frame_local m0 g l m l' m' evs :
  (g < nthreads L)%nat ->
  frame L m0 m -> True -> k_step L g l m = (l', m', evs) ->
  frame L m0 m' /\ True /\ Forall (fun _ => True) evs.
Proof.
  intros _ [Ha1 Ha0] _ Hs. split; [|split; [done|by apply Forall_true]].
  destruct l; cbn in Hs; repeat case_match; simplify_eq; try by split.
  split; cbn; [done|]. by apply same_except_insert.
Qed.

(** *** Every thread stops *)

Lemma u32_succ i : 0 <= i < ITERATION -> U32.add i 1 = i + 1.
Proof.
  unfold ITERATION, U32.add, U32.wrap, U32.modulus. intros.
  apply Z.mod_small. lia.
Qed.

Lemma bounds_local g l m l' m' evs :
  (g < nthreads L)%nat ->
  True -> loop_bounds l -> k_step L g l m = (l', m', evs) ->
  True /\ loop_bounds l' /\ Forall (fun _ => True) evs.
Proof.
  intros _ _ Hl Hs. split; [done|]. split; [|by apply Forall_true].
  destruct l; cbn in Hs, Hl; repeat case_match; simplify_eq; cbn; try done;
    rewrite ?u32_succ by done; unfold ITERATION in *; lia.
Qed.

Lemma remaining_local g l m l' m' evs :
  loop_bounds l -> k_step L g l m = (l', m', evs) ->
  (remaining l' <= remaining l - 1)%nat.
Proof.
  intros Hl Hs.
  destruct l; cbn in Hs, Hl; repeat case_match; simplify_eq;
    rewrite ?u32_succ by done;
    unfold remaining, thread_steps, ITERATION in *; lia.
Qed.

Lemma step_lookup_same s g l l' m' evs :
  locals s !! g = Some l -> k_step L g l (mem s) = (l', m', evs) ->
  locals (step L s g) !! g = Some l'.
Proof.
  intros Hg Hs. unfold step. rewrite Hg, Hs. cbn.
  apply list_lookup_insert_eq. by eapply lookup_lt_Some.
Qed.

Lemma step_lookup_other s g g' :
  g <> g' -> locals (step L s g) !! g' = locals s !! g'.
Proof.
  intros Hne. unfold step. destruct (locals s !! g) as [l|]; [|done].
  destruct (k_step L g l (mem s)) as [[? ?] ?]. cbn.
  by apply list_lookup_insert_ne.
Qed.

Lemma stopped_k_step g l m :
  stopped l -> k_step L g l m = (l, m, []).
Proof. by intros [-> | ->]. Qed.

Lemma stopped_step s g g' l :
  stopped l -> locals s !! g = Some l -> locals (step L s g') !! g = Some l.
Proof.
  intros Hl Hg. destruct (decide (g' = g)) as [->|Hne].
  - eapply step_lookup_same; [done|]. by apply stopped_k_step.
  - by rewrite step_lookup_other.
Qed.

Lemma stopped_run sched s g l :
  stopped l -> locals s !! g = Some l -> locals (run L sched s) !! g = Some l.
Proof.
  intros Hl. revert s. induction sched as [|g' sched IH]; intros s Hg; [done|].
  rewrite run_cons. by apply IH, stopped_step.
Qed.

Lemma bounded_run sched s : bounded L s -> bounded L (run L sched s).
Proof. apply holds_run. intros g l m l' m' evs. apply bounds_local. Qed.

Lemma bounded_init m0 : bounded L (init L m0).
Proof. by apply holds_init. Qed.

Lemma remaining_zero l : loop_bounds l -> remaining l = 0%nat -> stopped l.
Proof.
  unfold stopped.
  destruct l; cbn -[Z.to_nat Nat.mul];
    unfold thread_steps, ITERATION; intros; auto; lia.
Qed.

Lemma remaining_le l : loop_bounds l -> (remaining l <= thread_steps)%nat.
Proof.
  destruct l; cbn -[Z.to_nat Nat.mul];
    unfold thread_steps, ITERATION; intros; try done; lia.
Qed.

Lemma stop_after n :
  forall s g l, bounded L s -> locals s !! g = Some l ->
    (remaining l <= n)%nat ->
    exists l', locals (run L (replicate n g) s) !! g = Some l' /\ stopped l'.
Proof.
  induction n as [|n IH]; intros s g l Hs Hg Hr.
  - exists l. split; [done|]. apply remaining_zero; [|lia].
    destruct Hs as (_ & _ & Hl & _). by eapply Hl.
  - cbn [replicate]. rewrite run_cons.
    destruct (k_step L g l (mem s)) as [[l' m'] evs] eqn:Hstep.
    apply (IH _ _ l').
    + by apply (bounded_run [g]).
    + by eapply step_lookup_same.
    + destruct Hs as (_ & _ & Hl & _).
      pose proof (remaining_local g l (mem s) l' m' evs (Hl _ _ Hg) Hstep). lia.
Qed.

Lemma drain_stops gs :
  forall s, bounded L s ->
    (forall g, g ∈ gs -> (g < length (locals s))%nat) ->
    forall g, g ∈ gs ->
      exists l,
        locals (run L (flat_map (fun g => replicate thread_steps g) gs) s) !! g
        = Some l /\ stopped l.
Proof.
  induction gs as [|g0 gs IH]; intros s Hs Hlt g Hg.
  - by apply elem_of_nil in Hg.
  - cbn [flat_map]. rewrite run_app.
    set (s1 := run L (replicate thread_steps g0) s).
    assert (Hs1 : bounded L s1) by by apply bounded_run.
    assert (Hg0 : exists l, locals s1 !! g0 = Some l /\ stopped l).
    { destruct (lookup_lt_is_Some_2 (locals s) g0) as [l Hl];
        [apply Hlt; left|].
      apply (stop_after _ s g0 l Hs Hl).
      apply remaining_le. destruct Hs as (_ & _ & Hl' & _). by eapply Hl'. }
    apply elem_of_cons in Hg as [->|Hg].
    + destruct Hg0 as (l & Hl & Hst). exists l. split; [|done].
      by apply stopped_run.
    + apply IH; [done| |done].
      intros g' Hg'. unfold s1. rewrite length_locals_run. apply Hlt. by right.
Qed.

Lemma kernel_stops m0 sched g :
  (g < nthreads L)%nat ->
  exists l, locals (kernel L m0 sched) !! g = Some l /\ stopped l.
Proof.
  intros Hg. unfold kernel, drain. rewrite run_app.
  apply drain_stops; [by apply bounded_run, bounded_init | |].
  - intros g' Hg'. rewrite length_locals_run. cbn. rewrite length_replicate.
    apply elem_of_seq in Hg'. lia.
  - apply elem_of_seq. lia.
Qed.

(** *** Inside the buffers, no thread faults *)

Lemma safe_local m0 g l m l' m' evs :
  in_bounds L m0 -> (g < nthreads L)%nat ->
  sized m0 m -> l <> AtFault -> k_step L g l m = (l', m', evs) ->
  sized m0 m' /\ l' <> AtFault /\ Forall (fun _ => True) evs.
Proof.
  intros [Hb0 Hb1] _ [H0 H1] Hl Hs.
  assert (is_Some (a1 m !! 0%nat)) as [v Hv] by (apply lookup_lt_is_Some; lia).
  assert (is_Some (a0 m !! target_index L)) as [w Hw]
    by (apply lookup_lt_is_Some; lia).
  split; [|split; [|by apply Forall_true]].
  - destruct l; cbn in Hs; repeat case_match; simplify_eq; try by split.
    split; cbn; [by rewrite length_insert|done].
  - destruct l; cbn in Hs; rewrite ?Hv, ?Hw in Hs;
      repeat case_match; simplify_eq; done.
Qed.

Lemma safe_run m0 sched s : in_bounds L m0 -> safe L m0 s -> safe L m0 (run L sched s).
Proof.
  intros Hb. apply holds_run. intros g l m l' m' evs. by apply safe_local.
Qed.

Lemma safe_init m0 : safe L m0 (init L m0).
Proof. by apply holds_init. Qed.

Lemma kernel_safe m0 sched : in_bounds L m0 -> safe L m0 (kernel L m0 sched).
Proof. intros Hb. by apply safe_run, safe_init. Qed.

Lemma kernel_exits m0 sched g :
  in_bounds L m0 -> (g < nthreads L)%nat ->
  locals (kernel L m0 sched) !! g = Some AtExit.
Proof.
  intros Hb Hg.
  destruct (kernel_stops m0 sched g Hg) as (l & Hl & [-> | ->]); [done|].
  destruct (kernel_safe m0 sched Hb) as (_ & _ & Hs & _). by destruct (Hs g _ Hl).
Qed.

Lemma safe_not_faulted m0 s : safe L m0 s -> faulted s = false.
Proof.
  intros (_ & _ & Hl & _). unfold faulted.
  apply not_true_is_false. intros Hex.
  apply existsb_exists in Hex as (l & Hin & Hf).
  apply list_elem_of_In, list_elem_of_lookup in Hin as [g Hg].
  specialize (Hl g l Hg). by destruct l.
Qed.

(** *** Adding zero: memory never changes *)

Lemma keeps_local m0 w g l m l' m' evs :
  a1 m0 !! 0%nat = Some 0 -> a0 m0 !! target_index L = Some w ->
  U32.in_range w -> (g < nthreads L)%nat ->
  m = m0 -> adds_nothing w l -> k_step L g l m = (l', m', evs) ->
  m' = m0 /\ adds_nothing w l' /\ Forall (loads_and_stores_keep w) evs.
Proof.
  intros Hv Hw Hr _ -> Hl Hs.
  destruct l; cbn in Hs, Hl; rewrite ?Hv, ?Hw in Hs;
    repeat case_match; simplify_eq; cbn;
    try (split; [done|split; [done|repeat constructor]]).
  destruct Hl as [-> ->].
  assert (Hsame : U32.add w 0 = w).
  { unfold U32.add, U32.wrap. rewrite Z.add_0_r. by apply Z.mod_small. }
  rewrite Hsame. split; [|split; [done|by repeat constructor]].
  destruct m0 as [b0 b1]; cbn in *. f_equal. by apply list_insert_id.
Qed.

(** *** A single leader: the launch is that thread running alone *)

Lemma solo_app g a b l m :
  solo L g (a + b) l m =
  let '(l1, m1, e1) := solo L g a l m in
  let '(l2, m2, e2) := solo L g b l1 m1 in
  (l2, m2, e1 ++ e2).
Proof.
  revert l m. induction a as [|a IH]; intros l m; cbn [solo Nat.add].
  - by destruct (solo L g b l m) as [[? ?] ?].
  - destruct (k_step L g l m) as [[l1 m1] e1]. rewrite IH.
    destruct (solo L g a l1 m1) as [[l2 m2] e2].
    destruct (solo L g b l2 m2) as [[l3 m3] e3]. by rewrite app_assoc.
Qed.

Lemma solo_exit g n m : solo L g n AtExit m = (AtExit, m, []).
Proof. induction n as [|n IH]; [done|]. cbn. by rewrite IH. Qed.

Lemma run_tracks_solo g0 :
  only_leader L g0 ->
  forall sched s l0,
    length (locals s) = nthreads L ->
    locals s !! g0 = Some l0 ->
    (forall g l, g <> g0 -> locals s !! g = Some l -> l = AtEntry \/ l = AtExit) ->
    forall l m evs,
      solo L g0 (count_occ Nat.eq_dec sched g0) l0 (mem s) = (l, m, evs) ->
      locals (run L sched s) !! g0 = Some l
      /\ mem (run L sched s) = m
      /\ log (run L sched s) = log s ++ map (pair g0) evs.
Proof.
  intros Hone. induction sched as [|g sched IH];
    intros s l0 Hlen Hg0 Hoth l m evs Hsolo.
  - cbn in Hsolo. simplify_eq. cbn. by rewrite app_nil_r.
  - rewrite run_cons. destruct (decide (g = g0)) as [->|Hne].
    + rewrite count_occ_cons_eq in Hsolo by done. cbn [solo] in Hsolo.
      destruct (k_step L g0 l0 (mem s)) as [[l1 m1] e1] eqn:Hstep.
      destruct (solo L g0 (count_occ Nat.eq_dec sched g0) l1 m1)
        as [[l2 m2] e2] eqn:Hrest.
      simplify_eq.
      assert (Hmem : mem (step L s g0) = m1) by (unfold step; by rewrite Hg0, Hstep).
      assert (Hlog : log (step L s g0) = log s ++ map (pair g0) e1)
        by (unfold step; by rewrite Hg0, Hstep).
      destruct (IH (step L s g0) l1) with (l := l) (m := m) (evs := e2)
        as (H1 & H2 & H3).
      * by rewrite length_locals_step.
      * by eapply step_lookup_same.
      * intros g l' Hg. rewrite step_lookup_other by done. by apply Hoth.
      * by rewrite Hmem.
      * split; [done|]. split; [done|].
        by rewrite H3, Hlog, map_app, app_assoc.
    + rewrite count_occ_cons_neq in Hsolo by done.
      assert (Hsame : mem (step L s g) = mem s /\ log (step L s g) = log s).
      { unfold step. destruct (locals s !! g) as [lg|] eqn:Hg; [|done].
        assert (Hsel : selected L g = false).
        { destruct (selected L g) eqn:E; [|done]. exfalso. apply Hne, Hone; [|done].
          rewrite <- Hlen. by eapply lookup_lt_Some. }
        destruct (Hoth g lg Hne Hg) as [-> | ->]; cbn; rewrite ?Hsel; cbn;
          by rewrite app_nil_r. }
      destruct Hsame as [Hmem Hlog].
      destruct (IH (step L s g) l0) with (l := l) (m := m) (evs := evs)
        as (H1 & H2 & H3).
      * by rewrite length_locals_step.
      * by rewrite step_lookup_other.
      * intros g' l' Hg' Hl'. destruct (decide (g = g')) as [<-|Hgg].
        -- unfold step in Hl'. destruct (locals s !! g) as [lg|] eqn:Hg.
           ++ assert (Hsel : selected L g = false).
              { destruct (selected L g) eqn:E; [|done]. exfalso.
                apply Hne, Hone; [|done].
                rewrite <- Hlen. by eapply lookup_lt_Some. }
              destruct (Hoth g lg Hne Hg) as [-> | ->];
                cbn in Hl'; rewrite ?Hsel in Hl'; cbn in Hl';
                rewrite list_lookup_insert_eq in Hl'
                  by (by eapply lookup_lt_Some);
                simplify_eq; auto.
           ++ by rewrite Hg in Hl'.
        -- rewrite step_lookup_other in Hl' by done. by eapply Hoth.
      * by rewrite Hmem.
      * by rewrite H3, Hlog.
Qed.

Lemma count_occ_replicate (g : nat) n :
  count_occ Nat.eq_dec (replicate n g) g = n.
Proof.
  induction n as [|n IHn]; [done|]. cbn [replicate].
  by rewrite count_occ_cons_eq, IHn.
Qed.

Lemma count_occ_drain g n gs :
  g ∈ gs -> (n <= count_occ Nat.eq_dec (flat_map (fun g => replicate n g) gs) g)%nat.
Proof.
  induction gs as [|g0 gs IH]; intros Hg; [by apply elem_of_nil in Hg|].
  cbn [flat_map]. rewrite count_occ_app.
  apply elem_of_cons in Hg as [->|Hg].
  - rewrite count_occ_replicate. lia.
  - specialize (IH Hg). lia.
Qed.

(** *** The timed block, step by step *)

Lemma latency_wrap c1 c2 : U32.sub c2 (U32.wrap c1) = U32.sub c2 c1.
Proof. unfold U32.sub, U32.wrap. apply Zminus_mod_idemp_r. Qed.

Lemma one_iteration g v w0 i m :
  (i < 5)%nat ->
  a1 m !! 0%nat = Some v ->
  a0 m !! target_index L = Some (accumulate v w0 i) ->
  solo L g 7 (AtLoop (Z.of_nat i) (2 * i)) m =
  (AtLoop (Z.of_nat (S i)) (2 * S i),
   {| a0 := <[target_index L := accumulate v w0 (S i)]> (a0 m); a1 := a1 m |},
   iteration_events L g v w0 i).
Proof.
  intros Hi Hv Hw.
  assert (Hlt : (Z.of_nat i <? ITERATION) = true)
    by (apply Z.ltb_lt; unfold ITERATION; lia).
  assert (Hinc : U32.add (Z.of_nat i) 1 = Z.of_nat (S i)).
  { unfold U32.add, U32.wrap, U32.modulus. rewrite Z.mod_small; lia. }
  cbn [solo k_step]. rewrite Hlt. cbn [solo k_step a0 a1].
  rewrite Hv. cbn [solo k_step a0 a1]. rewrite Hw. cbn [solo k_step a0 a1 app].
  rewrite Hinc, latency_wrap.
  replace (2 * S i)%nat with (S (S (2 * i))) by lia.
  unfold iteration_events, latency_of.
  replace (2 * i + 1)%nat with (S (2 * i)) by lia.
  reflexivity.
Qed.

Lemma iterations g v w0 k :
  forall i m, (i + k <= 5)%nat ->
    a1 m !! 0%nat = Some v ->
    a0 m !! target_index L = Some (accumulate v w0 i) ->
    solo L g (7 * k) (AtLoop (Z.of_nat i) (2 * i)) m =
    (AtLoop (Z.of_nat (i + k)) (2 * (i + k)),
     {| a0 := <[target_index L := accumulate v w0 (i + k)]> (a0 m); a1 := a1 m |},
     flat_map (iteration_events L g v w0) (seq i k)).
Proof.
  induction k as [|k IH]; intros i m Hik Hv Hw.
  - rewrite Nat.mul_0_r, Nat.add_0_r. cbn [solo seq flat_map].
    rewrite list_insert_id by done. by destruct m.
  - replace (7 * S k)%nat with (7 + 7 * k)%nat by lia.
    rewrite solo_app, (one_iteration g v w0 i m) by (done || lia).
    rewrite (IH (S i)); cbn [a0 a1]; [|lia|done|].
    + rewrite list_insert_insert_eq.
      replace (S i + k)%nat with (i + S k)%nat by lia. reflexivity.
    + apply list_lookup_insert_eq. by eapply lookup_lt_Some.
Qed.

Lemma leader_solo g v w m n :
  selected L g = true ->
  a1 m !! 0%nat = Some v ->
  a0 m !! target_index L = Some w ->
  (thread_steps <= n)%nat ->
  solo L g n AtEntry m =
  (AtExit,
   {| a0 := <[target_index L := accumulate v w 5]> (a0 m); a1 := a1 m |},
   flat_map (iteration_events L g v w) (seq 0 5)).
Proof.
  intros Hsel Hv Hw Hn.
  replace n with (1 + (7 * 5 + (1 + (n - thread_steps))))%nat
    by (unfold thread_steps, ITERATION in *; lia).
  rewrite solo_app. cbn [solo k_step]. rewrite Hsel.
  rewrite solo_app. change (AtLoop 0 0) with (AtLoop (Z.of_nat 0) (2 * 0)).
  rewrite (iterations g v w 5 0 m) by (done || lia).
  rewrite solo_app. cbn [solo k_step Nat.add].
  change (Z.of_nat 5 <? ITERATION) with false. cbn iota.
  rewrite solo_exit. by rewrite !app_nil_r.
Qed.

(** *** The events of one thread *)

Lemma events_of_app g l1 l2 :
  events_of g (l1 ++ l2) = events_of g l1 ++ events_of g l2.
Proof. unfold events_of. induction l1; [done|]. cbn. by rewrite IHl1, app_assoc. Qed.

Lemma events_of_same g evs : events_of g (map (pair g) evs) = evs.
Proof.
  unfold events_of. induction evs as [|e evs IH]; [done|].
  cbn. by rewrite Nat.eqb_refl, IH.
Qed.

Lemma events_of_other g g' evs : g' <> g -> events_of g (map (pair g') evs) = [].
Proof.
  intros Hne. unfold events_of. induction evs as [|e evs IH]; [done|].
  cbn. apply Nat.eqb_neq in Hne. by rewrite Hne, IH.
Qed.

Lemma events_of_silent g evs :
  Forall (fun te => by_leader_at_target L (fst te) (snd te)) evs ->
  selected L g = false -> events_of g evs = [].
Proof.
  intros Hall Hsel. unfold events_of.
  induction Hall as [|[g' e] evs (_ & Hg' & _) _ IH]; [done|].
  cbn in *. destruct (Nat.eqb_spec g' g) as [->|_]; [congruence|done].
Qed.

Lemma guard_run m sched :
  holds (nthreads L) (fun _ => True) (silent_pos L) (by_leader_at_target L)
    (run L sched (init L m)).
Proof.
  apply holds_run; [apply guard_local|]. apply holds_init; [done|].
  intros g _. by left.
Qed.

Lemma before_first_event_dec l : before_first_event l \/ ~ before_first_event l.
Proof.
  unfold before_first_event.
  destruct l as [|i n|i n| | | | | | |]; try (right; intros [?|[?|?]]; done);
    try (left; auto; fail).
  - destruct (decide (i = 0)) as [->|]; [|right; intros [?|[?|?]]; congruence].
    destruct n; [left; auto|right; intros [?|[?|?]]; congruence].
  - destruct (decide (i = 0)) as [->|]; [|right; intros [?|[?|?]]; congruence].
    destruct n; [left; auto|right; intros [?|[?|?]]; congruence].
Qed.

Lemma started_step s g : started L s -> started L (step L s g).
Proof.
  intros Hs g' l' Hg' Hsel Hnb. unfold step in *.
  destruct (locals s !! g) as [l|] eqn:Hg; [|by eapply Hs].
  destruct (k_step L g l (mem s)) as [[l1 m1] evs] eqn:Hstep.
  cbn [log locals] in *. rewrite events_of_app.
  destruct (decide (g = g')) as [<-|Hne].
  - rewrite list_lookup_insert_eq in Hg' by (by eapply lookup_lt_Some).
    simplify_eq. rewrite events_of_same.
    destruct (before_first_event_dec l) as [Hb|Hb].
    + destruct Hb as [-> | [-> | ->]]; cbn in Hstep; rewrite ?Hsel in Hstep;
        simplify_eq; try (exfalso; apply Hnb; unfold before_first_event; auto; fail).
      by destruct (events_of g (log s)).
    + specialize (Hs g l Hg Hsel Hb). by destruct (events_of g (log s)).
  - rewrite list_lookup_insert_ne in Hg' by done.
    rewrite events_of_other, app_nil_r by done. by eapply Hs.
Qed.

Lemma started_run m sched : started L (run L sched (init L m)).
Proof.
  apply (run_invariant (started L) started_step).
  intros g l Hg _ Hnb. apply lookup_replicate in Hg as [-> _].
  exfalso. apply Hnb. by left.
Qed.

(** *** Matching groups and their leaders *)

Lemma selected_spec g :
  selected L g = true <->
  __smid (build L) (placement L (blockIdx_x L g)) = sm_chosen L
  /\ threadIdx_x L g = 0%nat.
Proof.
  unfold selected, sm_id, group_identity, get_smid.
  by rewrite andb_true_iff, Z.eqb_eq, Nat.eqb_eq.
Qed.

Lemma block_of_thread g :
  (g < nthreads L)%nat -> (blockIdx_x L g < gridDim_x L)%nat.
Proof.
  unfold nthreads, blockIdx_x. intros Hg.
  apply Nat.Div0.div_lt_upper_bound. lia.
Qed.

Lemma selected_in_matching g :
  (g < nthreads L)%nat -> selected L g = true ->
  blockIdx_x L g ∈ matching_groups L
  /\ g = (blockIdx_x L g * blockDim_x L)%nat.
Proof.
  intros Hg Hsel. unfold selected in Hsel.
  apply andb_true_iff in Hsel as [Hid Htid].
  apply Z.eqb_eq in Hid. apply Nat.eqb_eq in Htid. split.
  - unfold matching_groups. apply list_elem_of_filter. split; [done|].
    apply elem_of_seq. pose proof (block_of_thread g Hg). lia.
  - unfold blockIdx_x, threadIdx_x in *.
    pose proof (Nat.div_mod_eq g (blockDim_x L)). lia.
Qed.

Lemma no_leader g :
  matching_groups L = [] -> (g < nthreads L)%nat -> selected L g = false.
Proof.
  intros Hnone Hg. destruct (selected L g) eqn:Hsel; [|done].
  destruct (selected_in_matching g Hg Hsel) as [Hin _].
  rewrite Hnone in Hin. by apply elem_of_nil in Hin.
Qed.

Lemma leader_of_group b :
  (0 < blockDim_x L)%nat -> matching_groups L = [b] ->
  (b * blockDim_x L < nthreads L)%nat
  /\ selected L (b * blockDim_x L) = true
  /\ only_leader L (b * blockDim_x L).
Proof.
  intros HB Hone.
  assert (Hb : b ∈ matching_groups L) by (rewrite Hone; by left).
  unfold matching_groups in Hb.
  apply list_elem_of_filter in Hb as [Hid Hb]. apply elem_of_seq in Hb.
  split; [unfold nthreads; nia|]. split.
  - unfold selected, sm_id, blockIdx_x, threadIdx_x.
    rewrite Nat.div_mul, Nat.Div0.mod_mul by lia.
    rewrite Hid, Z.eqb_refl. done.
  - intros g Hg Hsel.
    destruct (selected_in_matching g Hg Hsel) as [Hin ->].
    rewrite Hone in Hin. apply list_elem_of_singleton in Hin. by rewrite Hin.
Qed.

Lemma kernel_single m sched b v w :
  (0 < blockDim_x L)%nat -> matching_groups L = [b] ->
  a1 m !! 0%nat = Some v -> a0 m !! target_index L = Some w ->
  log (kernel L m sched)
  = map (pair (b * blockDim_x L)%nat)
      (flat_map (iteration_events L (b * blockDim_x L) v w)
         (seq 0 (Z.to_nat ITERATION)))
  /\ mem (kernel L m sched)
    = {| a0 := <[target_index L := accumulate v w (Z.to_nat ITERATION)]> (a0 m);
         a1 := a1 m |}.
Proof.
  intros HB Hone Hv Hw.
  destruct (leader_of_group b HB Hone) as (Hlt & Hsel & Honly).
  set (g0 := (b * blockDim_x L)%nat) in *.
  unfold kernel.
  edestruct (run_tracks_solo g0 Honly (sched ++ drain L) (init L m) AtEntry)
    as (_ & Hm & Hlog).
  - cbn. apply length_replicate.
  - cbn. by apply lookup_replicate_2.
  - intros g l _ Hg. cbn in Hg. apply lookup_replicate in Hg as [-> _]. by left.
  - cbn [mem init]. apply leader_solo; [done..|].
    rewrite count_occ_app.
    pose proof (count_occ_drain g0 thread_steps (seq 0 (nthreads L))) as Hc.
    unfold drain. etrans; [apply Hc|lia]. apply elem_of_seq. lia.
  - by rewrite Hlog, Hm.
Qed.

Lemma kernel_none m sched :
  matching_groups L = [] ->
  log (kernel L m sched) = [] /\ mem (kernel L m sched) = m.
Proof.
  intros Hnone. unfold kernel.
  assert (H : holds (nthreads L) (fun m' => m' = m)
                (fun _ l => l = AtEntry \/ l = AtExit) (fun _ _ => False)
                (run L (sched ++ drain L) (init L m))).
  { apply holds_run; [|apply holds_init; auto].
    intros g l m1 l' m' evs Hg -> Hl Hs.
    pose proof (no_leader g Hnone Hg) as Hsel.
    destruct Hl as [-> | ->]; cbn in Hs; rewrite ?Hsel in Hs; simplify_eq; auto. }
  destruct H as (_ & Hm & _ & He). split; [|done].
  destruct (log (run L (sched ++ drain L) (init L m))); [done|].
  by apply Forall_cons in He as [? _].
Qed.

End Kernel.

(** ** Formatted output *)

Lemma digits_line d :
  d <> Decimal.Nil ->
  decimal_line (NilEmpty.string_of_uint d ++ LF) = true.
Proof.
  induction d as [|d IH|d IH|d IH|d IH|d IH|d IH|d IH|d IH|d IH|d IH];
    intros Hd; [done|..];
    cbn [NilEmpty.string_of_uint String.append decimal_line];
    (destruct d; [reflexivity|..]);
    (rewrite IH by done); (rewrite orb_true_r); reflexivity.
Qed.

Lemma to_uint_nonnil n : N.to_uint n <> Decimal.Nil.
Proof. destruct n; [done|]. apply DecimalPos.Unsigned.to_uint_nonnil. Qed.

Lemma string_of_uint_nonnil d :
  d <> Decimal.Nil -> NilZero.string_of_uint d = NilEmpty.string_of_uint d.
Proof. by destruct d. Qed.

Lemma decimal_line_printf x : decimal_line (printf_u x) = true.
Proof.
  unfold printf_u, decimal.
  rewrite string_of_uint_nonnil by apply to_uint_nonnil.
  apply digits_line, to_uint_nonnil.
Qed.

Lemma strip_newline_app s : strip_newline (s ++ LF) = Some s.
Proof.
  induction s as [|c s IH]; [reflexivity|].
  cbn [String.append strip_newline]. rewrite IH.
  destruct s; reflexivity.
Qed.

Lemma parse_printf x : 0 <= x -> parse_line (printf_u x) = Some x.
Proof.
  intros Hx. unfold parse_line, printf_u, decimal.
  rewrite strip_newline_app, NilZero.usu by apply to_uint_nonnil.
  cbn. by rewrite DecimalN.Unsigned.of_to, Z2N.id.
Qed.

Lemma wrap_range x : 0 <= U32.wrap x < 2 ^ 32.
Proof. unfold U32.wrap, U32.modulus. apply Z.mod_pos_bound. lia. Qed.

(** ** The kernel: main results *)

Example small_matching : matching_groups small_launch = [2%nat].
Proof. vm_compute. reflexivity. Qed.

Example small_run :
  stdout_of (log (kernel small_launch small_mem [4; 0; 4; 5; 4]%nat))
  = [printf_u 40; printf_u 40; printf_u 40; printf_u 40; printf_u 40]
  /\ mem (kernel small_launch small_mem [4; 0; 4; 5; 4]%nat)
     = {| a0 := [10; 55; 30]; a1 := [7; 8] |}.
Proof. vm_compute. split; reflexivity. Qed.

Lemma timed_blocks_snoc L g vws vw :
  timed_blocks L g (vws ++ [vw])
  = timed_blocks L g vws ++ timed_block L g (length vws) vw.
Proof.
  unfold timed_blocks. rewrite imap_app, concat_app.
  cbn [imap concat]. by rewrite app_nil_r, Nat.add_0_r.
Qed.

Lemma in_progress_local L g l m l' m' evs0 evs :
  is_Some (a1 m !! 0%nat) -> is_Some (a0 m !! target_index L) ->
  loop_bounds l -> silent_pos L g l -> in_progress L g l evs0 ->
  k_step L g l m = (l', m', evs) ->
  in_progress L g l' (evs0 ++ evs).
Proof.
  intros [v Hv] [w Hw] Hlb Hsil Hin Hs.
  destruct l; cbn in Hs, Hlb, Hin; rewrite ?Hv, ?Hw in Hs.
  - destruct (selected L g) eqn:Hsel; simplify_eq; cbn.
    + by exists [].
    + by rewrite Hsel.
  - assert (Hsel : selected L g = true).
    { destruct (selected L g) eqn:E; [done|]. by destruct (Hsil E). }
    destruct Hin as (vws & -> & -> & ->).
    destruct (Z.of_nat (length vws) <? ITERATION) eqn:Hi; simplify_eq; cbn.
    + exists vws. by rewrite app_nil_r.
    + rewrite Hsel. exists vws. rewrite app_nil_r. split; [|done].
      apply Z.ltb_ge in Hi. unfold ITERATION in *. lia.
  - destruct Hin as (vws & -> & -> & ->). simplify_eq. cbn.
    exists vws. repeat split; try done. lia.
  - destruct Hin as (vws & -> & -> & -> & ->). simplify_eq. cbn.
    exists vws. repeat split; try done. by rewrite <- app_assoc.
  - destruct Hin as (vws & -> & -> & -> & ->). simplify_eq. cbn.
    exists vws. repeat split; try done. by rewrite <- app_assoc.
  - destruct Hin as (vws & -> & -> & -> & ->). simplify_eq. cbn.
    exists vws, (rhs, lhs). repeat split; try done. by rewrite <- app_assoc.
  - destruct Hin as (vws & vw & -> & -> & -> & ->). simplify_eq. cbn.
    exists vws, vw. repeat split; try lia.
    + rewrite latency_wrap. unfold latency_of. done.
    + by rewrite <- app_assoc.
  - destruct Hin as (vws & vw & -> & -> & -> & ->). simplify_eq. cbn.
    exists (vws ++ [vw]). rewrite length_app, timed_blocks_snoc. cbn [length].
    repeat split.
    + rewrite u32_succ by done. lia.
    + lia.
    + by rewrite <- app_assoc.
  - simplify_eq. by rewrite app_nil_r.
  - simplify_eq. done.
Qed.

Lemma traced_step L m0 s g :
  in_bounds L m0 -> sized m0 (mem s) -> length (locals s) = nthreads L ->
  traced L s ->
  traced L (step L s g) /\ sized m0 (mem (step L s g)).
Proof.
  intros Hb Hsz Hlen Hc. unfold step.
  destruct (locals s !! g) as [l|] eqn:Hg; [|done].
  destruct (k_step L g l (mem s)) as [[l' m'] evs] eqn:Hs.
  assert (Hlt : (g < nthreads L)%nat) by (rewrite <- Hlen; by eapply lookup_lt_Some).
  destruct (Hc g l Hg) as (Hin & Hlb & Hnf & Hsil).
  destruct (safe_local L m0 g l (mem s) l' m' evs Hb Hlt Hsz Hnf Hs) as (Hsz' & Hnf' & _).
  destruct (bounds_local L g l (mem s) l' m' evs Hlt I Hlb Hs) as (_ & Hlb' & _).
  destruct (guard_local L g l (mem s) l' m' evs Hlt I Hsil Hs) as (_ & Hsil' & _).
  split; [|exact Hsz'].
  intros g' l0 Hg'. cbn [locals log mem] in *. rewrite events_of_app.
  destruct (decide (g = g')) as [<-|Hne].
  - rewrite list_lookup_insert_eq in Hg' by (by eapply lookup_lt_Some).
    simplify_eq. rewrite events_of_same. split; [|done].
    destruct Hb as [Hb0 Hb1]. destruct Hsz as [H0 H1].
    apply (in_progress_local L g l (mem s) l0 m'); try done;
      apply lookup_lt_is_Some; lia.
  - rewrite list_lookup_insert_ne in Hg' by done.
    rewrite events_of_other, app_nil_r by done. by apply Hc.
Qed.

Lemma traced_run L m0 sched :
  in_bounds L m0 ->
  forall s, sized m0 (mem s) -> length (locals s) = nthreads L ->
    traced L s -> traced L (run L sched s).
Proof.
  intros Hb. induction sched as [|g sched IH]; intros s Hsz Hlen Hc; [done|].
  rewrite run_cons.
  destruct (traced_step L m0 s g Hb Hsz Hlen Hc) as [Hc' Hsz'].
  apply IH; [done| by rewrite length_locals_step |done].
Qed.

Lemma kernel_timed_blocks L m sched g :
  in_bounds L m -> (g < nthreads L)%nat -> selected L g = true ->
  exists vws, length vws = Z.to_nat ITERATION
              /\ events_of g (log (kernel L m sched)) = timed_blocks L g vws.
Proof.
  intros Hb Hg Hsel.
  assert (Hc : traced L (kernel L m sched)).
  { unfold kernel. apply (traced_run L m); try done.
    - cbn. apply length_replicate.
    - intros g' l Hl. cbn in Hl. apply lookup_replicate in Hl as [-> _].
      repeat split; try done. by left. }
  destruct (Hc g AtExit (kernel_exits L m sched g Hb Hg)) as [Hin _].
  cbn in Hin. by rewrite Hsel in Hin.
Qed.

(** C1.  Every launched thread reads its identity through the locator
    ([get_smid], taken to be [__smid]) and passes the guard exactly when
    that identity equals the target and its [threadIdx.x] is 0.  With
    [start_idx] inside the buffers and under every interleaving, a thread
    executes the timed block exactly when it passes the guard: what it
    does in the launch is then [ITERATION] passes through the block, each
    one a read of the cycle counter, the load of [a1[0]], the load of
    [a0[start_idx]], the store of their sum to [a0[start_idx]], a second
    read of the counter and the line with the difference.  A thread that
    does not pass the guard produces no event at any point of the launch,
    no store and no output, and no step it takes changes memory. *)
Theorem k_guard (L : Launch) (m : Mem) (sched : list nat) (g : nat) :
  (g < nthreads L)%nat ->
  (selected L g = true <->
     __smid (build L) (placement L (blockIdx_x L g)) = sm_chosen L
     /\ threadIdx_x L g = 0%nat)
  /\ (in_bounds L m ->
      (selected L g = true <->
       exists vws, length vws = Z.to_nat ITERATION
                   /\ events_of g (log (kernel L m sched)) = timed_blocks L g vws))
  /\ (selected L g = true <-> events_of g (log (kernel L m sched)) <> [])
  /\ (selected L g = false ->
      forall sched',
        events_of g (log (run L sched' (init L m))) = []
        /\ mem (step L (run L sched' (init L m)) g) = mem (run L sched' (init L m))).
Proof.
  intros Hg.
  assert (Hsilent : selected L g = false ->
            forall sched', events_of g (log (run L sched' (init L m))) = []).
  { intros Hsel sched'.
    destruct (guard_run L m sched') as (_ & _ & _ & He).
    by apply (events_of_silent L). }
  assert (Hstarted : selected L g = true ->
            events_of g (log (kernel L m sched)) <> []).
  { intros Hsel.
    destruct (kernel_stops L m sched g Hg) as (l & Hl & Hst).
    apply (started_run L m (sched ++ drain L) g l Hl Hsel).
    intros [-> | [-> | ->]]; by destruct Hst. }
  split; [apply selected_spec|]. split; [|split; [|]].
  - intros Hb. split; [by apply kernel_timed_blocks|].
    intros (vws & Hlen & Hev). destruct (selected L g) eqn:Hsel; [done|].
    unfold kernel in Hev. rewrite (Hsilent eq_refl) in Hev.
    destruct vws as [|vw vws]; [done|]. discriminate Hev.
  - split; [exact Hstarted|].
    intros Hev. destruct (selected L g) eqn:Hsel; [done|].
    exfalso. apply Hev. unfold kernel. by apply Hsilent.
  - intros Hsel sched'. split; [by apply Hsilent|].
    destruct (guard_run L m sched') as (_ & _ & Hl & _).
    unfold step. destruct (locals _ !! g) as [l|] eqn:Hgl; [|done].
    destruct (Hl g l Hgl Hsel) as [-> | ->]; cbn; by rewrite ?Hsel.
Qed.

Lemma k_guard_witness :
  events_of 4 (log (kernel small_launch small_mem [4; 0; 4]%nat)) <> []
  /\ events_of 5 (log (run small_launch [5; 4; 5]%nat (init small_launch small_mem))) = [].
Proof.
  assert (H4 : (4 < nthreads small_launch)%nat) by (vm_compute; lia).
  assert (H5 : (5 < nthreads small_launch)%nat) by (vm_compute; lia).
  split.
  - apply (proj1 (proj2 (proj2 (k_guard small_launch small_mem [4; 0; 4]%nat 4 H4)))).
    reflexivity.
  - apply (proj2 (proj2 (proj2 (k_guard small_launch small_mem [] 5 H5)))).
    reflexivity.
Defined.

Lemma stdout_of_leader L g v w n :
  stdout_of (map (pair g) (flat_map (iteration_events L g v w) (seq 0 n)))
  = map (fun i => printf_u (latency_of L g i)) (seq 0 n).
Proof.
  generalize 0%nat. induction n as [|n IH]; intros i; [done|].
  cbn [seq flat_map]. rewrite map_app. unfold stdout_of in *.
  rewrite flat_map_app, IH. reflexivity.
Qed.

(** C2.  When one block matches the target, the launch consists of the
    events of that block's thread 0 alone: 5 iterations, each made of a
    read of the cycle counter, the load of [a1[0]], the load and the store
    of [a0[start_idx]], a second read of the cycle counter and the line
    printed for the difference of the two readings; the 5 lines of output
    are those differences in iteration order. *)
Theorem k_timed_block (L : Launch) (m : Mem) (sched : list nat)
    (b : nat) (v w : Z) :
  (0 < blockDim_x L)%nat ->
  matching_groups L = [b] ->
  a1 m !! 0%nat = Some v ->
  a0 m !! target_index L = Some w ->
  let g := (b * blockDim_x L)%nat in
  let s := kernel L m sched in
  Z.to_nat ITERATION = 5%nat
  /\ log s = map (pair g) (flat_map (iteration_events L g v w) [0; 1; 2; 3; 4]%nat)
  /\ stdout_of (log s)
     = map (fun i =>
              printf_u (U32.sub (clock L g (2 * i + 1)) (clock L g (2 * i))))
         [0; 1; 2; 3; 4]%nat.
Proof.
  intros HB Hone Hv Hw g s. split; [reflexivity|].
  destruct (kernel_single L m sched b v w HB Hone Hv Hw) as [Hlog _].
  fold g in Hlog. fold s in Hlog. split; [exact Hlog|].
  rewrite Hlog. apply (stdout_of_leader L g v w 5).
Qed.

Lemma k_timed_block_witness :
  log (kernel small_launch small_mem [4; 0; 4; 5; 4]%nat)
  = map (pair 4%nat) (flat_map (iteration_events small_launch 4 7 20) [0; 1; 2; 3; 4]%nat).
Proof.
  apply (k_timed_block small_launch small_mem [4; 0; 4; 5; 4]%nat 2 7 20);
    [vm_compute; lia | reflexivity | reflexivity | reflexivity].
Defined.

Lemma k_single_lines L m sched b v w :
  (0 < blockDim_x L)%nat -> matching_groups L = [b] ->
  a1 m !! 0%nat = Some v -> a0 m !! target_index L = Some w ->
  stdout_of (log (kernel L m sched))
  = map (fun i => printf_u (latency_of L (b * blockDim_x L) i)) [0; 1; 2; 3; 4]%nat.
Proof.
  intros HB Hone Hv Hw.
  destruct (kernel_single L m sched b v w HB Hone Hv Hw) as [-> _].
  apply (stdout_of_leader L _ v w 5).
Qed.

(** C3.  With [start_idx] inside the buffer: when exactly one block's
    identity equals the target, the kernel prints exactly 5 lines, each
    one or more decimal digits and a newline, reading back as a number in
    [0, 2^32); when no block's identity equals the target it prints
    nothing. *)
Theorem k_output_lines (L : Launch) (m : Mem) (sched : list nat) :
  (0 < blockDim_x L)%nat ->
  in_bounds L m ->
  let out := stdout_of (log (kernel L m sched)) in
  (forall b, matching_groups L = [b] ->
     length out = 5%nat
     /\ Forall (fun line =>
                 decimal_line line = true
                 /\ exists x, 0 <= x < 2 ^ 32 /\ parse_line line = Some x) out)
  /\ (matching_groups L = [] -> out = []).
Proof.
  intros HB [Hb0 Hb1] out. split.
  - intros b Hone.
    destruct (lookup_lt_is_Some_2 (a1 m) 0) as [v Hv]; [done|].
    destruct (lookup_lt_is_Some_2 (a0 m) (target_index L)) as [w Hw]; [done|].
    pose proof (k_single_lines L m sched b v w HB Hone Hv Hw) as Hout.
    fold out in Hout. rewrite Hout. split; [done|].
    repeat constructor; try apply decimal_line_printf;
      eexists; (split; [apply wrap_range|]); apply parse_printf, wrap_range.
  - intros Hnone. unfold out.
    by destruct (kernel_none L m sched Hnone) as [-> _].
Qed.

Lemma k_output_lines_witness :
  length (stdout_of (log (kernel small_launch small_mem [4; 0; 4; 5; 4]%nat))) = 5%nat.
Proof.
  assert (HB : (0 < blockDim_x small_launch)%nat) by (vm_compute; lia).
  assert (Hb : in_bounds small_launch small_mem) by (vm_compute; lia).
  assert (Hone : matching_groups small_launch = [2%nat]) by reflexivity.
  exact (proj1 (proj1 (k_output_lines small_launch small_mem [4; 0; 4; 5; 4]%nat HB Hb)
                  2%nat Hone)).
Defined.

Lemma frame_run L m sched :
  holds (nthreads L) (frame L m) (fun _ _ => True) (fun _ _ => True)
    (run L sched (init L m)).
Proof.
  apply holds_run; [apply frame_local|]. apply holds_init; [|done].
  split; [done|apply same_except_refl].
Qed.

(** C4.  In every launch, every store goes to [a0[start_idx]] and comes
    from a thread that passed the guard; [a1] and every other element of
    [a0] are as before the launch.  When exactly one block matches the
    target, that element is written, and every event of the launch comes
    from thread 0 of that block. *)
Theorem k_single_write (L : Launch) (m : Mem) (sched : list nat) :
  let s := kernel L m sched in
  (forall g buf idx v, (g, EvStore buf idx v) ∈ log s ->
     buf = A0 /\ idx = target_index L
     /\ (g < nthreads L)%nat /\ selected L g = true)
  /\ a1 (mem s) = a1 m
  /\ length (a0 (mem s)) = length (a0 m)
  /\ (forall j, j <> target_index L -> a0 (mem s) !! j = a0 m !! j)
  /\ (forall b, (0 < blockDim_x L)%nat -> in_bounds L m ->
       matching_groups L = [b] ->
       (exists v, (b * blockDim_x L, EvStore A0 (target_index L) v)%nat ∈ log s)
       /\ (forall g e, (g, e) ∈ log s -> g = (b * blockDim_x L)%nat)).
Proof.
  intros s. split; [|split; [|split; [|split]]].
  - intros g buf idx v Hin.
    destruct (guard_run L m (sched ++ drain L)) as (_ & _ & _ & He).
    rewrite Forall_forall in He. destruct (He _ Hin) as (Hlt & Hsel & Hst).
    destruct (Hst buf idx v eq_refl) as [-> ->]. done.
  - by destruct (frame_run L m (sched ++ drain L)) as (_ & [? _] & _).
  - by destruct (frame_run L m (sched ++ drain L)) as (_ & [_ [? _]] & _).
  - by destruct (frame_run L m (sched ++ drain L)) as (_ & [_ [_ ?]] & _).
  - intros b HB [Hb0 Hb1] Hone.
    destruct (lookup_lt_is_Some_2 (a1 m) 0) as [v Hv]; [done|].
    destruct (lookup_lt_is_Some_2 (a0 m) (target_index L)) as [w Hw]; [done|].
    destruct (kernel_single L m sched b v w HB Hone Hv Hw) as [Hlog _].
    fold s in Hlog. rewrite Hlog. split.
    + exists (accumulate v w 1). apply list_elem_of_fmap.
      eexists. split; [reflexivity|].
      change (Z.to_nat ITERATION) with 5%nat. cbn [seq flat_map iteration_events app].
      do 3 right. left.
    + intros g e Hin. apply list_elem_of_fmap in Hin as (e' & Heq & _).
      by inversion Heq.
Qed.

Lemma k_single_write_witness :
  exists v, (4%nat, EvStore A0 (target_index small_launch) v)
            ∈ log (kernel small_launch small_mem [4; 0; 4; 5; 4]%nat).
Proof.
  assert (HB : (0 < blockDim_x small_launch)%nat) by (vm_compute; lia).
  assert (Hb : in_bounds small_launch small_mem) by (vm_compute; lia).
  assert (Hone : matching_groups small_launch = [2%nat]) by reflexivity.
  destruct (k_single_write small_launch small_mem [4; 0; 4; 5; 4]%nat)
    as (_ & _ & _ & _ & H).
  exact (proj1 (H 2%nat HB Hb Hone)).
Defined.

(** ** The host program *)

Example atoi_plain : atoi "3" = Some 3. Proof. reflexivity. Qed.
Example atoi_junk : atoi "  -12x" = Some (-12). Proof. reflexivity. Qed.
Example atoi_none : atoi "abc" = Some 0. Proof. reflexivity. Qed.
Example atoi_big : atoi "99999999999" = None. Proof. reflexivity. Qed.
Example msg_ex : failure_message 189 "out of memory"
  = ("HIP failure latency.cpp:189: 'out of memory'" ++ LF)%string.
Proof. reflexivity. Qed.

Lemma elements_per_buffer : buffer_bytes / sizeof_unsigned_int = S_SIZE.
Proof. reflexivity. Qed.

Lemma S_SIZE_value : S_SIZE = 524288.
Proof. reflexivity. Qed.

Lemma length_fresh g n : length (fresh g n) = n.
Proof. unfold fresh. by rewrite length_map, length_seq. Qed.

Lemma length_iota n : length (iota n) = n.
Proof. unfold iota. by rewrite length_map, length_seq. Qed.

Lemma lookup_iota n i : (i < n)%nat -> iota n !! i = Some (Z.of_nat i).
Proof.
  intros Hi. unfold iota. rewrite list_lookup_fmap, lookup_seq_lt by done.
  reflexivity.
Qed.

Lemma fill_prefix (f : nat -> Z) n :
  forall a, (n <= length a)%nat ->
    fold_left (fun a i => <[i := f i]> a) (seq 0 n) a = map f (seq 0 n) ++ drop n a.
Proof.
  induction n as [|n IH]; intros a Hn; [by rewrite drop_0|].
  rewrite seq_S, fold_left_app, IH by lia. cbn [fold_left Nat.add].
  rewrite map_app. cbn [map].
  assert (Hlen : length (map f (seq 0 n)) = n) by by rewrite length_map, length_seq.
  rewrite insert_app_r_alt by lia. rewrite Hlen, Nat.sub_diag.
  destruct (lookup_lt_is_Some_2 a n) as [x Hx]; [lia|].
  rewrite (drop_S a x n Hx). cbn. by rewrite <- app_assoc.
Qed.

Lemma fill_loop_fresh g :
  fill_loop (fresh g (Z.to_nat S_SIZE)) = iota (Z.to_nat S_SIZE).
Proof.
  unfold fill_loop. rewrite fill_prefix by (by rewrite length_fresh).
  rewrite drop_ge, app_nil_r by (by rewrite length_fresh).
  unfold iota. apply map_ext_in. intros i Hi. apply in_seq in Hi.
  unfold U32.wrap, U32.modulus. apply Z.mod_small.
  rewrite S_SIZE_value in Hi. lia.
Qed.

Lemma copy_all n src dst :
  length src = n -> length dst = n -> copy n src dst = src.
Proof.
  intros Hs Hd. unfold copy.
  rewrite take_ge, drop_ge, app_nil_r by lia. done.
Qed.

Lemma kernel_keeps L m sched w :
  a1 m !! 0%nat = Some 0 -> a0 m !! target_index L = Some w -> U32.in_range w ->
  holds (nthreads L) (fun m' => m' = m) (fun _ => adds_nothing w)
    (fun _ => loads_and_stores_keep w) (kernel L m sched).
Proof.
  intros Hv Hw Hr. unfold kernel. apply holds_run.
  - intros g l m1 l' m' evs. by apply keeps_local.
  - by apply holds_init.
Qed.

Lemma wrap_small x : 0 <= x < 2 ^ 32 -> U32.wrap x = x.
Proof. intros. unfold U32.wrap, U32.modulus. by apply Z.mod_small. Qed.

Ltac host_eval :=
  lazy beta iota zeta delta
    [main_body bind malloc hipMalloc hipCheckError fill hipMemcpy launch_k
     hipDeviceSynchronize free hipFree emit ret
     act put checked with_h_arr with_dev
     with_pending with_device_log with_buffer buffer actions stdout checks
     h_arr dev pending device_log a0 a1 app start_of_process
     outcome final].

Ltac host_step E :=
  host_eval;
  rewrite ?elements_per_buffer, ?(fill_loop_fresh (host_garbage E));
  rewrite ?copy_all by (by rewrite ?length_iota, ?length_fresh);
  rewrite ?take_ge by (by rewrite ?length_iota).

Section Host.
Variable E : Env.
Variables start chosen : Z.
Hypothesis start_in_buffer : 0 <= start < S_SIZE.

Local Abbreviation L := (launch_of E start chosen).

Lemma target_of_launch : target_index L = Z.to_nat start.
Proof.
  unfold target_index, launch_of. cbn [start_idx].
  rewrite wrap_small; [done|]. rewrite S_SIZE_value in start_in_buffer. lia.
Qed.

Lemma launch_in_bounds : in_bounds L iota_mem.
Proof.
  unfold in_bounds, iota_mem. cbn [a0 a1]. rewrite length_iota, target_of_launch.
  rewrite S_SIZE_value in *. lia.
Qed.

Lemma launch_not_faulted sched : faulted (kernel L iota_mem sched) = false.
Proof. eapply safe_not_faulted, kernel_safe, launch_in_bounds. Qed.

Lemma launch_keeps sched :
  holds (nthreads L) (fun m' => m' = iota_mem) (fun _ => adds_nothing start)
    (fun _ => loads_and_stores_keep start) (kernel L iota_mem sched).
Proof.
  apply kernel_keeps.
  - cbn [a1 iota_mem]. apply (lookup_iota _ 0). rewrite S_SIZE_value. lia.
  - cbn [a0 iota_mem]. rewrite target_of_launch, lookup_iota.
    + by rewrite Z2Nat.id by lia.
    + rewrite S_SIZE_value in *. lia.
  - unfold U32.in_range, U32.modulus. rewrite S_SIZE_value in *. lia.
Qed.

Lemma launch_mem sched : mem (kernel L iota_mem sched) = iota_mem.
Proof. by destruct (launch_keeps sched) as (_ & ? & _). Qed.

Hypothesis malloc_succeeds : malloc_ok E = true.

Local Abbreviation h0 := (act (HipSetDevice 0) start_of_process).
Local Abbreviation out := (stdout_of (log (kernel L iota_mem (schedule E)))).

Ltac host_simpl :=
  host_step E;
  rewrite ?malloc_succeeds; host_step E;
  fold (launch_of E start chosen); fold iota_mem;
  rewrite ?launch_not_faulted, ?launch_mem.

Ltac pass_check H :=
  host_simpl; rewrite H; change (hipSuccess =? hipSuccess) with true.

Ltac fail_check He Hne :=
  host_simpl; rewrite He;
  match goal with
  | |- context [?e =? hipSuccess] =>
      destruct (Z.eqb_spec e hipSuccess) as [Heq|_]; [by destruct (Hne Heq)|]
  end;
  host_simpl.

Lemma main_body_fail k line e :
  check_lines !! k = Some line ->
  (forall j, (j < k)%nat -> last_error E j = hipSuccess) ->
  last_error E k = e -> e <> hipSuccess ->
  exists h,
    main_body E start chosen h0 = Stop (Exited 0) h
    /\ actions h
       = take (3 + 2 * k) (clean_actions (U32.wrap start) (U32.wrap chosen))
         ++ [HipGetLastError e;
             Printf (failure_message line (error_string E e));
             Exit 0]
    /\ stdout h
       = (if (k =? 5)%nat then out else [])
         ++ [failure_message line (error_string E e)].
Proof.
  intros Hline Hok He Hne.
  assert (H0 : (0 < k)%nat -> last_error E 0 = hipSuccess) by (intros; apply Hok; lia).
  assert (H1 : (1 < k)%nat -> last_error E 1 = hipSuccess) by (intros; apply Hok; lia).
  assert (H2 : (2 < k)%nat -> last_error E 2 = hipSuccess) by (intros; apply Hok; lia).
  assert (H3 : (3 < k)%nat -> last_error E 3 = hipSuccess) by (intros; apply Hok; lia).
  assert (H4 : (4 < k)%nat -> last_error E 4 = hipSuccess) by (intros; apply Hok; lia).
  clear Hok.
  destruct k as [|[|[|[|[|[|k]]]]]]; cbn in Hline; try done;
    injection Hline as <-.
  - fail_check He Hne. eexists. split; [reflexivity|]. split; reflexivity.
  - pass_check H0; [|lia]. fail_check He Hne.
    eexists. split; [reflexivity|]. split; reflexivity.
  - pass_check H0; [|lia]. pass_check H1; [|lia]. fail_check He Hne.
    eexists. split; [reflexivity|]. split; reflexivity.
  - pass_check H0; [|lia]. pass_check H1; [|lia]. pass_check H2; [|lia].
    fail_check He Hne.
    eexists. split; [reflexivity|]. split; reflexivity.
  - pass_check H0; [|lia]. pass_check H1; [|lia]. pass_check H2; [|lia].
    pass_check H3; [|lia]. fail_check He Hne.
    eexists. split; [reflexivity|]. split; reflexivity.
  - pass_check H0; [|lia]. pass_check H1; [|lia]. pass_check H2; [|lia].
    pass_check H3; [|lia]. pass_check H4; [|lia]. fail_check He Hne.
    eexists. split; [reflexivity|]. split; reflexivity.
Qed.

Lemma main_body_clean :
  (forall j, (j < 6)%nat -> last_error E j = hipSuccess) ->
  main_body E start chosen h0
  = Next 0
      {| actions := removelast (clean_actions (U32.wrap start) (U32.wrap chosen));
         stdout := out; checks := 6; h_arr := None; dev := iota_mem;
         pending := None;
         device_log := log (kernel L iota_mem (schedule E)) |}.
Proof.
  intros Hok.
  assert (H0 : last_error E 0 = hipSuccess) by (apply Hok; lia).
  assert (H1 : last_error E 1 = hipSuccess) by (apply Hok; lia).
  assert (H2 : last_error E 2 = hipSuccess) by (apply Hok; lia).
  assert (H3 : last_error E 3 = hipSuccess) by (apply Hok; lia).
  assert (H4 : last_error E 4 = hipSuccess) by (apply Hok; lia).
  assert (H5 : last_error E 5 = hipSuccess) by (apply Hok; lia).
  pass_check H0. pass_check H1. pass_check H2. pass_check H3.
  pass_check H4. pass_check H5. host_simpl. reflexivity.
Qed.

End Host.

Lemma launch_recorded E start chosen :
  malloc_ok E = true ->
  (forall j, (j < 4)%nat -> last_error E j = hipSuccess) ->
  LaunchKernel NUM_SM BLOCK_SIZE (U32.wrap start) (U32.wrap chosen)
  ∈ actions
      (match main_body E start chosen (act (HipSetDevice 0) start_of_process) with
       | Next status h => act (Return status) h
       | Stop _ h => h
       end).
Proof.
  intros Hmalloc Hok.
  assert (H0 : last_error E 0 = hipSuccess) by (apply Hok; lia).
  assert (H1 : last_error E 1 = hipSuccess) by (apply Hok; lia).
  assert (H2 : last_error E 2 = hipSuccess) by (apply Hok; lia).
  assert (H3 : last_error E 3 = hipSuccess) by (apply Hok; lia).
  host_step E. rewrite Hmalloc. host_step E.
  rewrite H0. change (hipSuccess =? hipSuccess) with true. host_step E.
  rewrite H1. change (hipSuccess =? hipSuccess) with true. host_step E.
  rewrite H2. change (hipSuccess =? hipSuccess) with true. host_step E.
  rewrite H3. change (hipSuccess =? hipSuccess) with true. host_step E.
  destruct (last_error E 4 =? hipSuccess); host_step E;
    [destruct (faulted _); host_step E;
     [|destruct (last_error E 5 =? hipSuccess); host_step E]|];
    apply list_elem_of_lookup; exists 10%nat; reflexivity.
Qed.

(** ** The arguments of [main] *)

Lemma main_parsed E argv s1 s2 n m :
  argv !! 1%nat = Some s1 -> atoi s1 = Some n ->
  argv !! 2%nat = Some s2 -> atoi s2 = Some m ->
  INT_MIN <= n * 64 <= INT_MAX ->
  main E argv start_of_process
  = main_body E (n * 64) m (act (HipSetDevice 0) start_of_process).
Proof.
  intros Hs1 Hn Hs2 Hm Hr.
  unfold main, bind, emit, arg, call_atoi, int_mul.
  rewrite Hs1, Hn, Hs2, Hm.
  assert ((INT_MIN <=? n * 64) && (n * 64 <=? INT_MAX) = true) as ->; [|done].
  apply andb_true_iff. split; apply Z.leb_le; lia.
Qed.

Lemma in_buffer_is_int x : 0 <= x < S_SIZE -> INT_MIN <= x <= INT_MAX.
Proof. rewrite S_SIZE_value. unfold INT_MIN, INT_MAX. lia. Qed.

(** ** Specifications of the host operations *)

Lemma triple_bind {A B} P (c : M A) (k : A -> M B) Q Q' R :
  triple P c Q R -> (forall a, triple (Q a) (k a) Q' R) ->
  triple P (bind c k) Q' R.
Proof.
  intros Hc Hk h Hh. unfold bind. specialize (Hc h Hh).
  destruct (c h) as [a h'|o h']; [by apply Hk|done].
Qed.

Lemma triple_ret {A} (a : A) (Q : A -> Host -> Prop) R :
  triple (Q a) (ret a) Q R.
Proof. by intros h Hh. Qed.

Section Preserved.
Variable E : Env.
Variables start chosen : Z.
Variable J : list Action -> Prop.
Hypothesis J_other :
  forall l a, (forall g b x y, a <> LaunchKernel g b x y) -> J l -> J (l ++ [a]).
Hypothesis J_launch :
  forall l, J l ->
    J (l ++ [LaunchKernel NUM_SM BLOCK_SIZE (U32.wrap start) (U32.wrap chosen)]).

Local Abbreviation I := (fun h : Host => J (actions h)).
Local Abbreviation Q := (fun _ (h : Host) => J (actions h)).
Local Abbreviation R := (fun (o : Outcome) (h : Host) => ends_zero o /\ J (actions h)).

Lemma kept_emit a :
  (forall g b x y, a <> LaunchKernel g b x y) -> triple I (emit a) Q R.
Proof. intros Ha h Hh. by apply J_other. Qed.

Lemma kept_malloc bytes : triple I (malloc E bytes) Q R.
Proof. intros h Hh. by apply J_other. Qed.

Lemma kept_hipMalloc buf bytes : triple I (hipMalloc E buf bytes) Q R.
Proof. intros h Hh. by apply J_other. Qed.

Lemma kept_hipCheckError line : triple I (hipCheckError E line) Q R.
Proof.
  intros h Hh. unfold hipCheckError.
  destruct (last_error E (checks h) =? hipSuccess).
  - by apply J_other.
  - split; [by left|]. cbn. repeat apply J_other; done.
Qed.

Lemma kept_fill : triple I fill Q R.
Proof.
  intros h Hh. unfold fill. destruct (h_arr h); [done|].
  split; [by right|done].
Qed.

Lemma kept_hipMemcpy buf bytes : triple I (hipMemcpy buf bytes) Q R.
Proof.
  intros h Hh. unfold hipMemcpy. destruct (h_arr h).
  - by apply J_other.
  - split; [by right|done].
Qed.

Lemma kept_launch_k :
  triple I (launch_k E NUM_SM BLOCK_SIZE start chosen) Q R.
Proof. intros h Hh. by apply J_launch. Qed.

Lemma kept_hipDeviceSynchronize : triple I (hipDeviceSynchronize E) Q R.
Proof.
  intros h Hh. unfold hipDeviceSynchronize. cbn [pending act].
  destruct (pending h) as [L|]; [|by apply J_other].
  destruct (faulted _).
  - split; [by right|]. by apply J_other.
  - by apply J_other.
Qed.

Lemma kept_free : triple I free Q R.
Proof. intros h Hh. by apply J_other. Qed.

Lemma kept_hipFree buf : triple I (hipFree buf) Q R.
Proof. by apply kept_emit. Qed.

Lemma kept_main_body :
  triple I (main_body E start chosen)
    (fun status h => status = 0 /\ J (actions h)) R.
Proof.
  unfold main_body.
  repeat (eapply triple_bind;
          [first [ apply kept_malloc | apply kept_hipMalloc
                 | apply kept_hipCheckError | apply kept_fill
                 | apply kept_hipMemcpy | apply kept_launch_k
                 | apply kept_hipDeviceSynchronize | apply kept_free
                 | apply kept_hipFree ]
          | intros ? ]).
  intros h Hh. by split.
Qed.

End Preserved.

Lemma main_ends_zero E argv :
  triple (fun _ => True) (main E argv)
    (fun status _ => status = 0) (fun o _ => ends_zero o).
Proof.
  intros h _. unfold main, bind, emit, arg, call_atoi, int_mul.
  destruct (argv !! 1%nat) as [s1|]; [|by right].
  destruct (atoi s1) as [n|]; [|by right].
  destruct (_ && _); [|by right].
  destruct (argv !! 2%nat) as [s2|]; [|by right].
  destruct (atoi s2) as [m|]; [|by right].
  pose proof (kept_main_body E (n * 64) m (fun _ => True)
                (fun _ _ _ _ => I) (fun _ _ => I) (act (HipSetDevice 0) h) I) as H.
  destruct (main_body E (n * 64) m (act (HipSetDevice 0) h)); by destruct H.
Qed.

(** ** The host program: main results *)

Lemma run_main_clean E argv s1 s2 n m :
  argv !! 1%nat = Some s1 -> atoi s1 = Some n ->
  argv !! 2%nat = Some s2 -> atoi s2 = Some m ->
  0 <= n * 64 < S_SIZE -> malloc_ok E = true ->
  (forall j, (j < 6)%nat -> last_error E j = hipSuccess) ->
  run_main E argv
  = {| outcome := Returned 0;
       final :=
         {| actions := clean_actions (U32.wrap (n * 64)) (U32.wrap m);
            stdout := stdout_of (log (kernel (launch_of E (n * 64) m) iota_mem (schedule E)));
            checks := 6; h_arr := None; dev := iota_mem; pending := None;
            device_log := log (kernel (launch_of E (n * 64) m) iota_mem (schedule E)) |} |}.
Proof.
  intros Hs1 Hn Hs2 Hm Hr Hmalloc Hok. unfold run_main.
  rewrite (main_parsed E argv s1 s2 n m) by (done || by apply in_buffer_is_int).
  by rewrite main_body_clean.
Qed.

Lemma run_main_fail E argv s1 s2 n m k line e :
  argv !! 1%nat = Some s1 -> atoi s1 = Some n ->
  argv !! 2%nat = Some s2 -> atoi s2 = Some m ->
  0 <= n * 64 < S_SIZE -> malloc_ok E = true ->
  check_lines !! k = Some line ->
  (forall j, (j < k)%nat -> last_error E j = hipSuccess) ->
  last_error E k = e -> e <> hipSuccess ->
  outcome (run_main E argv) = Exited 0
  /\ actions (final (run_main E argv))
     = take (3 + 2 * k) (clean_actions (U32.wrap (n * 64)) (U32.wrap m))
       ++ [HipGetLastError e;
           Printf (failure_message line (error_string E e));
           Exit 0]
  /\ stdout (final (run_main E argv))
     = (if (k =? 5)%nat
        then stdout_of (log (kernel (launch_of E (n * 64) m) iota_mem (schedule E)))
        else [])
       ++ [failure_message line (error_string E e)].
Proof.
  intros Hs1 Hn Hs2 Hm Hr Hmalloc Hline Hok He Hne. unfold run_main.
  rewrite (main_parsed E argv s1 s2 n m) by (done || by apply in_buffer_is_int).
  destruct (main_body_fail E (n * 64) m Hr Hmalloc k line e Hline Hok He Hne)
    as (h & -> & Ha & Ho).
  done.
Qed.

(** A run of [main] in which no check fails and exactly one block is
    placed on the target unit prints the five samples, and nothing else. *)
Lemma main_samples E argv s1 s2 n m b :
  argv !! 1%nat = Some s1 -> atoi s1 = Some n ->
  argv !! 2%nat = Some s2 -> atoi s2 = Some m ->
  0 <= n * 64 < S_SIZE -> malloc_ok E = true ->
  (forall j, (j < 6)%nat -> last_error E j = hipSuccess) ->
  matching_groups (launch_of E (n * 64) m) = [b] ->
  stdout (final (run_main E argv))
  = map (fun i => printf_u (latency_of (launch_of E (n * 64) m) (b * BLOCK_SIZE) i))
      [0; 1; 2; 3; 4]%nat.
Proof.
  intros Hs1 Hn Hs2 Hm Hr Hmalloc Hok Hone.
  rewrite (run_main_clean E argv s1 s2 n m) by done. cbn [final stdout].
  destruct (launch_in_bounds E (n * 64) m Hr) as [Hb0 Hb1].
  destruct (lookup_lt_is_Some_2 _ _ Hb1) as [v Hv].
  destruct (lookup_lt_is_Some_2 _ _ Hb0) as [w Hw].
  change BLOCK_SIZE with (blockDim_x (launch_of E (n * 64) m)).
  apply (k_single_lines _ _ _ b v w); [|done..].
  unfold launch_of, BLOCK_SIZE. cbn. lia.
Qed.

(** C10.  In a run in which no check fails, [main] allocates the host
    array and the two device buffers with the same byte count, copies the
    sequence 0, 1, ..., S_SIZE-1 to each device buffer once, launches the
    kernel, waits for it, releases the host array and both device buffers
    and returns: these are its actions, in this order. *)
Theorem buffer_lifecycle (E : Env) (argv : list string) (s1 s2 : string) (n m : Z) :
  argv !! 1%nat = Some s1 -> atoi s1 = Some n ->
  argv !! 2%nat = Some s2 -> atoi s2 = Some m ->
  0 <= n * 64 < S_SIZE -> malloc_ok E = true ->
  (forall j, (j < 6)%nat -> last_error E j = hipSuccess) ->
  let r := run_main E argv in
  let identity := iota (Z.to_nat S_SIZE) in
  actions (final r)
  = [ HipSetDevice 0;
      Malloc buffer_bytes;
      HipMalloc A0 buffer_bytes; HipGetLastError hipSuccess;
      HipMalloc A1 buffer_bytes; HipGetLastError hipSuccess;
      HipMemcpyHtoD A0 identity buffer_bytes; HipGetLastError hipSuccess;
      HipMemcpyHtoD A1 identity buffer_bytes; HipGetLastError hipSuccess;
      LaunchKernel NUM_SM BLOCK_SIZE (U32.wrap (n * 64)) (U32.wrap m);
      HipGetLastError hipSuccess;
      HipDeviceSynchronize; HipGetLastError hipSuccess;
      Free; HipFree A0; HipFree A1;
      Return 0 ]
  /\ buffer_bytes = sizeof_unsigned_int * S_SIZE
  /\ length identity = Z.to_nat S_SIZE
  /\ (forall i, (i < Z.to_nat S_SIZE)%nat -> identity !! i = Some (Z.of_nat i))
  /\ outcome r = Returned 0.
Proof.
  intros Hs1 Hn Hs2 Hm Hr Hmalloc Hok r identity. unfold r.
  rewrite (run_main_clean E argv s1 s2 n m) by done.
  split; [reflexivity|]. split; [reflexivity|].
  split; [apply length_iota|]. split; [apply lookup_iota|reflexivity].
Qed.

Lemma buffer_lifecycle_witness :
  outcome (run_main quiet_env small_argv) = Returned 0.
Proof.
  apply (buffer_lifecycle quiet_env small_argv "3" "2" 3 2);
    [reflexivity | reflexivity | reflexivity | reflexivity
    | rewrite S_SIZE_value; lia | reflexivity | intros; reflexivity].
Defined.

(** C5.  In a run in which no check fails, the kernel starts with [a1[0]]
    equal to 0: every load of [a1] in the launch reads 0, every store
    writes the value the element already has, and after the run both
    device buffers hold [i] at every index [i]. *)
Theorem timed_add_is_zero (E : Env) (argv : list string) (s1 s2 : string) (n m : Z) :
  argv !! 1%nat = Some s1 -> atoi s1 = Some n ->
  argv !! 2%nat = Some s2 -> atoi s2 = Some m ->
  0 <= n * 64 < S_SIZE -> malloc_ok E = true ->
  (forall j, (j < 6)%nat -> last_error E j = hipSuccess) ->
  let r := run_main E argv in
  let L := launch_of E (n * 64) m in
  outcome r = Returned 0
  /\ device_log r.(final) = log (kernel L iota_mem (schedule E))
  /\ a1 iota_mem !! 0%nat = Some 0
  /\ Forall (fun te => loads_and_stores_keep (n * 64) (snd te)) (device_log r.(final))
  /\ (forall i, (i < Z.to_nat S_SIZE)%nat ->
        a0 (dev r.(final)) !! i = Some (Z.of_nat i)
        /\ a1 (dev r.(final)) !! i = Some (Z.of_nat i)).
Proof.
  intros Hs1 Hn Hs2 Hm Hr Hmalloc Hok r L. unfold r.
  rewrite (run_main_clean E argv s1 s2 n m) by done. cbn [outcome final device_log dev].
  split; [reflexivity|]. split; [reflexivity|].
  split; [apply (lookup_iota _ 0); rewrite S_SIZE_value; lia|].
  split.
  - destruct (launch_keeps E (n * 64) m Hr (schedule E)) as (_ & _ & _ & He).
    exact He.
  - intros i Hi. split; by apply lookup_iota.
Qed.

Lemma timed_add_is_zero_witness :
  outcome (run_main quiet_env small_argv) = Returned 0
  /\ a0 (dev (final (run_main quiet_env small_argv))) !! 192%nat = Some 192.
Proof.
  destruct (timed_add_is_zero quiet_env small_argv "3" "2" 3 2)
    as (Ho & _ & _ & _ & Hmem);
    [reflexivity | reflexivity | reflexivity | reflexivity
    | rewrite S_SIZE_value; lia | reflexivity | intros; reflexivity |].
  split; [exact Ho|].
  assert (Hi : (192 < Z.to_nat S_SIZE)%nat) by (rewrite S_SIZE_value; lia).
  exact (proj1 (Hmem 192%nat Hi)).
Defined.

Lemma atoi_range s v : atoi s = Some v -> INT_MIN <= v <= INT_MAX.
Proof.
  unfold atoi. cbv zeta.
  generalize (match skip_spaces s with
              | String "-" rest => - digits_value 0 rest
              | String "+" rest => digits_value 0 rest
              | rest => digits_value 0 rest
              end).
  intros x H. destruct (_ && _) eqn:Hr; [|done]. injection H as <-.
  apply andb_true_iff in Hr as [H1 H2]. apply Z.leb_le in H1, H2. lia.
Qed.

Ltac pass_next E H :=
  host_step E; rewrite H; change (hipSuccess =? hipSuccess) with true.

Lemma main_body_faulted E start chosen :
  malloc_ok E = true ->
  (forall j, (j < 5)%nat -> last_error E j = hipSuccess) ->
  faulted (kernel (launch_of E start chosen) iota_mem (schedule E)) = true ->
  main_body E start chosen (act (HipSetDevice 0) start_of_process)
  = Stop Undefined
      {| actions := take 13 (clean_actions (U32.wrap start) (U32.wrap chosen));
         stdout := []; checks := 5;
         h_arr := Some (iota (Z.to_nat S_SIZE)); dev := iota_mem;
         pending := Some (launch_of E start chosen); device_log := [] |}.
Proof.
  intros Hmalloc Hok Hf.
  assert (H0 : last_error E 0 = hipSuccess) by (apply Hok; lia).
  assert (H1 : last_error E 1 = hipSuccess) by (apply Hok; lia).
  assert (H2 : last_error E 2 = hipSuccess) by (apply Hok; lia).
  assert (H3 : last_error E 3 = hipSuccess) by (apply Hok; lia).
  assert (H4 : last_error E 4 = hipSuccess) by (apply Hok; lia).
  host_step E. rewrite Hmalloc.
  pass_next E H0. pass_next E H1. pass_next E H2. pass_next E H3. pass_next E H4.
  host_step E. fold (launch_of E start chosen). fold iota_mem. rewrite Hf.
  reflexivity.
Qed.

Lemma main_body_completed E start chosen :
  malloc_ok E = true ->
  (forall j, (j < 6)%nat -> last_error E j = hipSuccess) ->
  faulted (kernel (launch_of E start chosen) iota_mem (schedule E)) = false ->
  main_body E start chosen (act (HipSetDevice 0) start_of_process)
  = Next 0
      {| actions := removelast (clean_actions (U32.wrap start) (U32.wrap chosen));
         stdout := stdout_of (log (kernel (launch_of E start chosen) iota_mem (schedule E)));
         checks := 6; h_arr := None;
         dev := mem (kernel (launch_of E start chosen) iota_mem (schedule E));
         pending := None;
         device_log := log (kernel (launch_of E start chosen) iota_mem (schedule E)) |}.
Proof.
  intros Hmalloc Hok Hf.
  assert (H0 : last_error E 0 = hipSuccess) by (apply Hok; lia).
  assert (H1 : last_error E 1 = hipSuccess) by (apply Hok; lia).
  assert (H2 : last_error E 2 = hipSuccess) by (apply Hok; lia).
  assert (H3 : last_error E 3 = hipSuccess) by (apply Hok; lia).
  assert (H4 : last_error E 4 = hipSuccess) by (apply Hok; lia).
  assert (H5 : last_error E 5 = hipSuccess) by (apply Hok; lia).
  host_step E. rewrite Hmalloc.
  pass_next E H0. pass_next E H1. pass_next E H2. pass_next E H3. pass_next E H4.
  host_step E. fold (launch_of E start chosen). fold iota_mem. rewrite Hf.
  pass_next E H5. host_step E. reflexivity.
Qed.

Lemma kernel_none_safe L m sched :
  matching_groups L = [] -> faulted (kernel L m sched) = false.
Proof.
  intros Hnone. unfold kernel.
  assert (H : holds (nthreads L) (fun _ => True)
                (fun _ l => l = AtEntry \/ l = AtExit) (fun _ _ => True)
                (run L (sched ++ drain L) (init L m))).
  { apply holds_run; [|apply holds_init; auto].
    intros g l m1 l' m' evs Hg _ Hl Hs.
    pose proof (no_leader L g Hnone Hg) as Hsel.
    destruct Hl as [-> | ->]; cbn in Hs; rewrite ?Hsel in Hs; simplify_eq;
      repeat split; auto. }
  destruct H as (_ & _ & Hl & _). unfold faulted.
  apply not_true_is_false. intros Hex.
  apply existsb_exists in Hex as (l & Hin & Hf).
  apply list_elem_of_In, list_elem_of_lookup in Hin as [g Hg].
  by destruct (Hl g l Hg) as [-> | ->].
Qed.

Lemma run_main_no_match E argv s1 s2 n m :
  argv !! 1%nat = Some s1 -> atoi s1 = Some n ->
  argv !! 2%nat = Some s2 -> atoi s2 = Some m ->
  INT_MIN <= n * 64 <= INT_MAX -> malloc_ok E = true ->
  (forall j, (j < 6)%nat -> last_error E j = hipSuccess) ->
  matching_groups (launch_of E (n * 64) m) = [] ->
  run_main E argv
  = {| outcome := Returned 0;
       final :=
         {| actions := clean_actions (U32.wrap (n * 64)) (U32.wrap m);
            stdout := []; checks := 6; h_arr := None; dev := iota_mem;
            pending := None; device_log := [] |} |}.
Proof.
  intros Hs1 Hn Hs2 Hm Hint Hmalloc Hok Hnone. unfold run_main.
  rewrite (main_parsed E argv s1 s2 n m) by done.
  rewrite main_body_completed by (done || by apply kernel_none_safe).
  destruct (kernel_none (launch_of E (n * 64) m) iota_mem (schedule E) Hnone)
    as [-> ->].
  reflexivity.
Qed.

(** C9.  For every start-index unit [n] whose product with 64 fits
    [int] and every target [m]: every kernel launch [main] makes has
    [NUM_SM] blocks of [BLOCK_SIZE] threads and is given, as
    [unsigned int], the offset [n * BLOCK_SIZE] and the target [m]
    reduced modulo 2^32; the launch is made whenever the four checks
    before it pass.  A non-negative value is passed as it is, and a
    negative one with 2^32 added. *)
Theorem kernel_arguments (E : Env) (argv : list string) (s1 s2 : string) (n m : Z) :
  argv !! 1%nat = Some s1 -> atoi s1 = Some n ->
  argv !! 2%nat = Some s2 -> atoi s2 = Some m ->
  INT_MIN <= n * 64 <= INT_MAX ->
  let r := run_main E argv in
  let offset := U32.wrap (n * Z.of_nat BLOCK_SIZE) in
  let target := U32.wrap m in
  Z.of_nat BLOCK_SIZE = 64
  /\ (forall grid block x y,
        LaunchKernel grid block x y ∈ actions r.(final) ->
        grid = NUM_SM /\ block = BLOCK_SIZE /\ x = offset /\ y = target)
  /\ (malloc_ok E = true ->
      (forall j, (j < 4)%nat -> last_error E j = hipSuccess) ->
      LaunchKernel NUM_SM BLOCK_SIZE offset target ∈ actions r.(final))
  /\ offset = (if 0 <=? n then n * Z.of_nat BLOCK_SIZE
               else n * Z.of_nat BLOCK_SIZE + 2 ^ 32)
  /\ target = (if 0 <=? m then m else m + 2 ^ 32).
Proof.
  intros Hs1 Hn Hs2 Hm Hint r offset target. unfold offset, target.
  change (Z.of_nat BLOCK_SIZE) with 64.
  split; [reflexivity|]. unfold r, run_main.
  rewrite (main_parsed E argv s1 s2 n m) by done. split; [|split; [|split]].
  - pose proof (kept_main_body E (n * 64) m
                  (fun l => forall g b x' y', LaunchKernel g b x' y' ∈ l ->
                     g = NUM_SM /\ b = BLOCK_SIZE
                     /\ x' = U32.wrap (n * 64) /\ y' = U32.wrap m)) as Hkept.
    assert (Hother : forall (l : list Action) a,
              (forall g b x y, a <> LaunchKernel g b x y) ->
              (forall g b x' y', LaunchKernel g b x' y' ∈ l ->
                 g = NUM_SM /\ b = BLOCK_SIZE
                 /\ x' = U32.wrap (n * 64) /\ y' = U32.wrap m) ->
              forall g b x' y', LaunchKernel g b x' y' ∈ l ++ [a] ->
                 g = NUM_SM /\ b = BLOCK_SIZE
                 /\ x' = U32.wrap (n * 64) /\ y' = U32.wrap m).
    { intros l a Ha Hl g b x' y' Hin.
      apply elem_of_app in Hin as [Hin|Hin]; [by apply Hl|].
      apply list_elem_of_singleton in Hin. by destruct (Ha g b x' y'). }
    specialize (Hkept Hother).
    assert (Hlaunch : forall l : list Action,
              (forall g b x' y', LaunchKernel g b x' y' ∈ l ->
                 g = NUM_SM /\ b = BLOCK_SIZE
                 /\ x' = U32.wrap (n * 64) /\ y' = U32.wrap m) ->
              forall g b x' y',
                LaunchKernel g b x' y'
                ∈ l ++ [LaunchKernel NUM_SM BLOCK_SIZE (U32.wrap (n * 64)) (U32.wrap m)] ->
                 g = NUM_SM /\ b = BLOCK_SIZE
                 /\ x' = U32.wrap (n * 64) /\ y' = U32.wrap m).
    { intros l Hl g b x' y' Hin.
      apply elem_of_app in Hin as [Hin|Hin]; [by apply Hl|].
      apply list_elem_of_singleton in Hin. by inversion Hin. }
    specialize (Hkept Hlaunch (act (HipSetDevice 0) start_of_process)).
    cbn beta in Hkept.
    assert (Hstart : forall g b x' y',
              LaunchKernel g b x' y' ∈ actions (act (HipSetDevice 0) start_of_process) ->
              g = NUM_SM /\ b = BLOCK_SIZE
              /\ x' = U32.wrap (n * 64) /\ y' = U32.wrap m).
    { intros g b x' y' Hin. cbn in Hin.
      apply list_elem_of_singleton in Hin. done. }
    specialize (Hkept Hstart).
    destruct (main_body E (n * 64) m (act (HipSetDevice 0) start_of_process))
      as [status h|o h]; cbn [final].
    + destruct Hkept as [_ Hk]. by apply Hother.
    + by destruct Hkept as [_ Hk].
  - intros Hmalloc Hok.
    pose proof (launch_recorded E (n * 64) m Hmalloc Hok) as Hin.
    by destruct (main_body E (n * 64) m (act (HipSetDevice 0) start_of_process)).
  - unfold U32.wrap, U32.modulus. unfold INT_MIN, INT_MAX in Hint.
    destruct (Z.leb_spec 0 n).
    + apply Z.mod_small. lia.
    + symmetry. apply (Z.mod_unique_pos _ _ (-1)); lia.
  - pose proof (atoi_range s2 m Hm) as Hr. unfold INT_MIN, INT_MAX in Hr.
    unfold U32.wrap, U32.modulus.
    destruct (Z.leb_spec 0 m).
    + apply Z.mod_small. lia.
    + symmetry. apply (Z.mod_unique_pos _ _ (-1)); lia.
Qed.

Lemma kernel_arguments_witness :
  LaunchKernel NUM_SM BLOCK_SIZE (3 * Z.of_nat BLOCK_SIZE) 2
  ∈ actions (final (run_main quiet_env small_argv)).
Proof.
  assert (Hint : INT_MIN <= 3 * 64 <= INT_MAX) by (unfold INT_MIN, INT_MAX; lia).
  exact (proj1 (proj2 (proj2
           (kernel_arguments quiet_env small_argv "3" "2" 3 2
              eq_refl eq_refl eq_refl eq_refl Hint)))
           eq_refl (fun _ _ => eq_refl)).
Defined.

(** Started with the arguments -1 and -1 on a device none of whose units
    has identity 2^32 - 1, [main] runs to its end and returns 0; the
    kernel it launches is given the offset 4294967232 and the target
    4294967295, which are not -1 * 64 and -1. *)
Lemma kernel_arguments_counterexample :
  atoi "-1" = Some (-1)
  /\ outcome (run_main quiet_env negative_argv) = Returned 0
  /\ LaunchKernel NUM_SM BLOCK_SIZE 4294967232 4294967295
     ∈ actions (final (run_main quiet_env negative_argv))
  /\ 4294967232 <> -1 * Z.of_nat BLOCK_SIZE
  /\ 4294967295 <> -1.
Proof.
  assert (Hint : INT_MIN <= -1 * 64 <= INT_MAX) by (unfold INT_MIN, INT_MAX; lia).
  assert (Hnone : matching_groups (launch_of quiet_env (-1 * 64) (-1)) = [])
    by (vm_compute; reflexivity).
  rewrite (run_main_no_match quiet_env negative_argv "-1" "-1" (-1) (-1)
             eq_refl eq_refl eq_refl eq_refl Hint eq_refl
             (fun _ _ => eq_refl) Hnone).
  cbn [outcome final actions].
  split; [reflexivity|]. split; [reflexivity|]. split; [|split; discriminate].
  apply list_elem_of_lookup. exists 10%nat. reflexivity.
Qed.

(** C7.  Each allocation, copy, launch and synchronization of [main] is
    followed at once by a call of [hipGetLastError].  When the first check
    to see an error is the [k]-th, the run is the error-free run up to the
    device call that check follows, then the check, one line
    ["HIP failure latency.cpp:<line>: '<error string>'"] printed last on
    the standard output, and [exit]: no later call is made. *)
Theorem hipCheckError_fatal (E : Env) (argv : list string) (s1 s2 : string) (n m : Z) :
  argv !! 1%nat = Some s1 -> atoi s1 = Some n ->
  argv !! 2%nat = Some s2 -> atoi s2 = Some m ->
  0 <= n * 64 < S_SIZE -> malloc_ok E = true ->
  let r := run_main E argv in
  let clean := clean_actions (U32.wrap (n * 64)) (U32.wrap m) in
  ((forall j, (j < 6)%nat -> last_error E j = hipSuccess) ->
     actions r.(final) = clean /\ each_call_checked clean = true)
  /\ (forall k line e,
        check_lines !! k = Some line ->
        (forall j, (j < k)%nat -> last_error E j = hipSuccess) ->
        last_error E k = e -> e <> hipSuccess ->
        let msg := failure_message line (error_string E e) in
        actions r.(final)
        = take (3 + 2 * k) clean ++ [HipGetLastError e; Printf msg; Exit 0]
        /\ (exists call, last (take (3 + 2 * k) clean) = Some call
                         /\ is_device_call call = true)
        /\ each_call_checked (actions r.(final)) = true
        /\ (exists device_out, stdout r.(final) = device_out ++ [msg]
                               /\ ((k < 5)%nat -> device_out = []))
        /\ msg = ("HIP failure latency.cpp:" ++ decimal line ++ ": '"
                  ++ error_string E e ++ "'" ++ LF)%string
        /\ outcome r = Exited 0).
Proof.
  intros Hs1 Hn Hs2 Hm Hr Hmalloc r clean. split.
  - intros Hok. unfold r.
    rewrite (run_main_clean E argv s1 s2 n m) by done. split; reflexivity.
  - intros k line e Hline Hok He Hne msg.
    destruct (run_main_fail E argv s1 s2 n m k line e) as (Ho & Ha & Hout); try done.
    fold r in Ho, Ha, Hout. fold clean in Ha. fold msg in Ha, Hout.
    split; [exact Ha|]. rewrite Ha.
    split; [|split; [|split; [|split; [reflexivity|exact Ho]]]].
    + destruct k as [|[|[|[|[|[|k]]]]]]; try done; eexists; split; reflexivity.
    + destruct k as [|[|[|[|[|[|k]]]]]]; try done; reflexivity.
    + eexists. split; [exact Hout|]. intros Hk.
      by destruct k as [|[|[|[|[|k]]]]]; [..|lia].
Qed.

Lemma hipCheckError_fatal_witness :
  outcome (run_main (failing_env 2 1 "invalid argument") small_argv) = Exited 0
  /\ stdout (final (run_main (failing_env 2 1 "invalid argument") small_argv))
     = [("HIP failure latency.cpp:198: 'invalid argument'" ++ LF)%string].
Proof.
  destruct (hipCheckError_fatal (failing_env 2 1 "invalid argument") small_argv
              "3" "2" 3 2) as [_ H];
    [reflexivity | reflexivity | reflexivity | reflexivity
    | rewrite S_SIZE_value; lia | reflexivity |].
  destruct (H 2%nat 198 1) as (_ & _ & _ & (out & Hout & Hnil) & _ & Ho);
    [reflexivity | | reflexivity | discriminate |].
  - intros j Hj. destruct j as [|[|j]]; [reflexivity | reflexivity | lia].
  - split; [exact Ho|]. rewrite Hout, Hnil by lia. reflexivity.
Defined.

(** C8.  Whenever the process ends with an exit status, the status is 0;
    for a well-formed command line the run returns 0 from [main] when no
    check fails and ends through [exit(0)] when one does. *)
Theorem exit_status_zero (E : Env) (argv : list string) :
  (forall status,
     exit_status (outcome (run_main E argv)) = Some status -> status = 0)
  /\ (forall s1 s2 n m,
        argv !! 1%nat = Some s1 -> atoi s1 = Some n ->
        argv !! 2%nat = Some s2 -> atoi s2 = Some m ->
        0 <= n * 64 < S_SIZE -> malloc_ok E = true ->
        ((forall j, (j < 6)%nat -> last_error E j = hipSuccess) ->
           outcome (run_main E argv) = Returned 0)
        /\ (forall k line e,
              check_lines !! k = Some line ->
              (forall j, (j < k)%nat -> last_error E j = hipSuccess) ->
              last_error E k = e -> e <> hipSuccess ->
              outcome (run_main E argv) = Exited 0)).
Proof.
  split.
  - intros status. unfold run_main.
    pose proof (main_ends_zero E argv start_of_process I) as H.
    destruct (main E argv start_of_process) as [st h|o h]; cbn.
    + intros [= <-]. exact H.
    + destruct H as [-> | ->]; cbn; congruence.
  - intros s1 s2 n m Hs1 Hn Hs2 Hm Hr Hmalloc. split.
    + intros Hok. by rewrite (run_main_clean E argv s1 s2 n m).
    + intros k line e Hline Hok He Hne.
      by destruct (run_main_fail E argv s1 s2 n m k line e) as (Ho & _).
Qed.

Lemma exit_status_zero_witness :
  outcome (run_main quiet_env small_argv) = Returned 0
  /\ outcome (run_main (failing_env 0 2 "out of memory") small_argv) = Exited 0.
Proof.
  split.
  - destruct (exit_status_zero quiet_env small_argv) as [_ H].
    destruct (H "3" "2" 3 2)%string as [Hclean _];
      [reflexivity | reflexivity | reflexivity | reflexivity
      | rewrite S_SIZE_value; lia | reflexivity |].
    apply Hclean. intros; reflexivity.
  - destruct (exit_status_zero (failing_env 0 2 "out of memory") small_argv) as [_ H].
    destruct (H "3" "2" 3 2)%string as [_ Hfail];
      [reflexivity | reflexivity | reflexivity | reflexivity
      | rewrite S_SIZE_value; lia | reflexivity |].
    apply (Hfail 0%nat 189 2); [reflexivity | intros; lia | reflexivity | discriminate].
Defined.

(** * Further properties *)

(** ** The locator: register reads and the range of the identity *)

Lemma lor_shiftl_add x y k :
  0 <= x -> 0 <= y < 2 ^ k -> 0 <= k -> x * 2 ^ k + y < 2 ^ 32 ->
  Z.lor (Z.shiftl x k) y = x * 2 ^ k + y.
Proof.
  intros Hx Hy Hk Hb. rewrite <- (shl_lor_arith x y k) by done.
  unfold U32.shl, U32.wrap, U32.modulus. f_equal.
  assert (0 < 2 ^ k) by (apply Z.pow_pos_nonneg; lia).
  rewrite Z.shiftl_mul_pow2 by lia. symmetry. apply Z.mod_small. nia.
Qed.

(** X1.  [GETREG_IMMED] packs its three arguments into disjoint bit
    ranges of a 16-bit immediate: for a size below 32, an offset below 32
    and a register number below 64, the register is read back from bits
    5:0, the offset from bits 10:6 and the size from bits 15:11. *)
Theorem GETREG_IMMED_decodes (SZ OFF REG : Z) :
  0 <= SZ < 32 -> 0 <= OFF < 32 -> 0 <= REG < 64 ->
  let imm := GETREG_IMMED SZ OFF REG in
  0 <= imm < 2 ^ 16
  /\ Z.land imm 63 = REG
  /\ Z.land (Z.shiftr imm 6) 31 = OFF
  /\ Z.land (Z.shiftr imm 11) 31 = SZ.
Proof.
  intros Hsz Hoff Hreg imm.
  assert (Himm : imm = (SZ * 32 + OFF) * 64 + REG).
  { unfold imm, GETREG_IMMED.
    replace (Z.shiftl SZ 11) with (Z.shiftl (Z.shiftl SZ 5) 6)
      by (rewrite Z.shiftl_shiftl by lia; reflexivity).
    rewrite <- Z.shiftl_lor.
    rewrite (lor_shiftl_add SZ OFF 5) by (change (2 ^ 5) with 32; lia).
    rewrite lor_shiftl_add by (change (2 ^ 5) with 32; change (2 ^ 6) with 64; lia).
    reflexivity. }
  change 63 with (Z.ones 6). change 31 with (Z.ones 5).
  rewrite !Z.land_ones, !Z.shiftr_div_pow2 by lia. rewrite Himm.
  change (2 ^ 16) with 65536. change (2 ^ 6) with 64. change (2 ^ 5) with 32.
  change (2 ^ 11) with 2048.
  split; [lia|]. split; [|split].
  - rewrite Z.add_comm, Z.mod_add by lia. apply Z.mod_small. lia.
  - rewrite Z.div_add_l, (Z.div_small REG) by lia.
    rewrite Z.add_0_r, Z.add_comm, Z.mod_add by lia. apply Z.mod_small. lia.
  - replace ((SZ * 32 + OFF) * 64 + REG) with (SZ * 2048 + (OFF * 64 + REG)) by lia.
    rewrite Z.div_add_l, (Z.div_small (OFF * 64 + REG)) by lia.
    rewrite Z.add_0_r. apply Z.mod_small. lia.
Qed.

Lemma GETREG_IMMED_decodes_witness :
  Z.land (Z.shiftr (GETREG_IMMED 3 8 4) 11) 31 = 3.
Proof.
  apply (GETREG_IMMED_decodes 3 8 4); lia.
Defined.

Lemma s_getreg_field regs sz off reg :
  Z.land (GETREG_IMMED (sz - 1) off reg) 63 = reg ->
  Z.land (Z.shiftr (GETREG_IMMED (sz - 1) off reg) 6) 31 = off ->
  Z.land (Z.shiftr (GETREG_IMMED (sz - 1) off reg) 11) 31 + 1 = sz ->
  0 <= sz ->
  s_getreg regs (GETREG_IMMED (sz - 1) off reg) = Z.shiftr (regs reg) off mod 2 ^ sz.
Proof.
  intros Hreg Hoff Hsz Hpos. unfold s_getreg. cbv zeta.
  rewrite Hreg, Hoff, Hsz. by apply Z.land_ones.
Qed.

(** X2.  The bit ranges [__smid] reads.  The shader engine is the field
    of the build's width at the build's offset of the hardware-id
    register.  On an RDNA build that register is number 23, the shader
    array is bit 16, the workgroup processor bits 13:10 and, in CU mode,
    the compute unit bit 8.  On the other builds the register is number
    4 and the compute unit is bits 11:8; on gfx940, gfx941 and gfx942 the
    XCC is bits 3:0 of register 20. *)
Theorem read_fields_layout (b : Build) (regs : Regs) :
  let f := read_fields b regs in
  se_id f = Z.shiftr (regs (HW_ID b)) (HW_ID_SE_ID_OFFSET b) mod 2 ^ HW_ID_SE_ID_SIZE b
  /\ (rdna b = true ->
      HW_ID b = 23
      /\ sa_id f = Z.shiftr (regs 23) 16 mod 2
      /\ wgp_id f = Z.shiftr (regs 23) 10 mod 16
      /\ (__AMDGCN_CUMODE__ b = true -> cu_id f = Z.shiftr (regs 23) 8 mod 2))
  /\ (rdna b = false ->
      HW_ID b = 4
      /\ cu_id f = Z.shiftr (regs 4) 8 mod 16
      /\ (gfx94x b = true -> xcc_id f = regs 20 mod 16)).
Proof.
  unfold read_fields, HW_ID, HW_ID_SE_ID_OFFSET, HW_ID_SE_ID_SIZE, HW_ID_CU_ID_SIZE,
    HW_ID_WGP_ID_SIZE, HW_ID_WGP_ID_OFFSET, HW_ID_SA_ID_SIZE, HW_ID_SA_ID_OFFSET,
    HW_ID_CU_ID_OFFSET, XCC_ID_XCC_ID_SIZE, XCC_ID_XCC_ID_OFFSET, XCC_ID.
  destruct (rdna b), (gfx94x b), (__AMDGCN_CUMODE__ b),
    (__gfx908__ b || __gfx90a__ b || __GFX11__ b);
    cbn [se_id sa_id wgp_id cu_id xcc_id andb negb];
    rewrite ?s_getreg_field by (reflexivity || lia);
    rewrite ?Z.shiftr_0_r;
    repeat split; try done.
Qed.

Lemma read_fields_layout_witness :
  cu_id (read_fields gcn (one_block_per_unit 5))
  = Z.shiftr (one_block_per_unit 5 4) 8 mod 16.
Proof.
  apply (read_fields_layout gcn (one_block_per_unit 5)). reflexivity.
Defined.

Lemma pack_value (b : Build) (f : Fields) :
  legal b f ->
  pack b f = side_by_side (constituents b f)
  /\ 0 <= pack b f < 2 ^ identity_width b f
  /\ identity_width b f <= 11.
Proof.
  unfold identity_width, side_by_side.
  unfold legal, legalb, pack, constituents,
    HW_ID_CU_ID_SIZE, HW_ID_SE_ID_SIZE,
    HW_ID_SA_ID_SIZE, HW_ID_WGP_ID_SIZE, XCC_ID_XCC_ID_SIZE.
  destruct f as [se sa wgp cu xcc].
  destruct (rdna b), (gfx94x b), (__AMDGCN_CUMODE__ b),
    (__gfx908__ b || __gfx90a__ b || __GFX11__ b);
    cbn; intros Hl;
    rewrite ?andb_true_iff, ?Z.leb_le, ?Z.ltb_lt in Hl;
    match goal with |- ?p = _ /\ _ => remember p as id eqn:E end;
    pack_arith; subst id; (split; [|split]); lia.
Qed.

(** X3.  The three packing variants of [__smid] agree with one
    description: the fields the build reads, written side by side with
    the first in the most significant position; no shift loses a bit and
    the one addition carries nothing.  On a build that is neither RDNA
    nor gfx94x the identity is [se_id * 16 + cu_id] with [cu_id] below
    16. *)
Theorem smid_side_by_side (b : Build) (regs : Regs) :
  let f := read_fields b regs in
  __smid b regs = side_by_side (constituents b f)
  /\ (rdna b = false -> gfx94x b = false ->
      __smid b regs = se_id f * 16 + cu_id f /\ 0 <= cu_id f < 16).
Proof.
  intros f.
  destruct (pack_value b f (read_fields_legal b regs)) as (Hv & _).
  split; [exact Hv|]. intros Hr Hx. unfold __smid. fold f. rewrite Hv.
  pose proof (read_fields_legal b regs) as Hl. fold f in Hl.
  unfold legal, legalb in Hl. revert Hl.
  unfold side_by_side, constituents, HW_ID_CU_ID_SIZE. rewrite Hr, Hx. cbn.
  rewrite !andb_true_iff, ?Z.leb_le, ?Z.ltb_lt. intros (_ & Hcu & _).
  split; lia.
Qed.

Lemma smid_side_by_side_witness :
  __smid gcn (one_block_per_unit 5)
  = se_id (read_fields gcn (one_block_per_unit 5)) * 16
    + cu_id (read_fields gcn (one_block_per_unit 5)).
Proof.
  apply (smid_side_by_side gcn (one_block_per_unit 5)); reflexivity.
Defined.

(** X4.  The identity [__smid] returns is below two to the sum of the
    widths of the fields the build packs; that sum is at most 11 bits, so
    the identity is below 2048 on every build and for every register
    content. *)
Theorem smid_range (b : Build) (regs : Regs) :
  0 <= __smid b regs < 2 ^ identity_width b (read_fields b regs)
  /\ identity_width b (read_fields b regs) <= 11
  /\ __smid b regs < 2048.
Proof.
  destruct (pack_value b (read_fields b regs) (read_fields_legal b regs))
    as (_ & Hr & Hw).
  unfold __smid. split; [done|]. split; [done|].
  assert (2 ^ identity_width b (read_fields b regs) <= 2 ^ 11)
    by (apply Z.pow_le_mono_r; lia).
  change (2 ^ 11) with 2048 in *. lia.
Qed.

Lemma pack_one_to_one (b : Build) (f1 f2 : Fields) :
  legal b f1 -> legal b f2 -> pack b f1 = pack b f2 ->
  constituents b f1 = constituents b f2.
Proof.
  unfold legal, legalb, pack, constituents, HW_ID_CU_ID_SIZE, HW_ID_SE_ID_SIZE,
    HW_ID_SA_ID_SIZE, HW_ID_WGP_ID_SIZE, XCC_ID_XCC_ID_SIZE.
  destruct f1 as [se1 sa1 wgp1 cu1 xcc1], f2 as [se2 sa2 wgp2 cu2 xcc2].
  destruct (rdna b), (gfx94x b), (__AMDGCN_CUMODE__ b),
    (__gfx908__ b || __gfx90a__ b || __GFX11__ b);
    cbn; intros L1 L2 E;
    rewrite ?andb_true_iff, ?Z.leb_le, ?Z.ltb_lt in L1, L2;
    pack_arith; repeat f_equal; lia.
Qed.

(** X5.  Two register contents give the same identity exactly when
    every field the build packs is the same in both. *)
Theorem smid_same_iff (b : Build) (r1 r2 : Regs) :
  __smid b r1 = __smid b r2
  <-> constituents b (read_fields b r1) = constituents b (read_fields b r2).
Proof.
  split.
  - apply pack_one_to_one; apply read_fields_legal.
  - intros Heq. unfold __smid.
    destruct (pack_value b (read_fields b r1) (read_fields_legal b r1)) as [-> _].
    destruct (pack_value b (read_fields b r2) (read_fields_legal b r2)) as [-> _].
    by rewrite Heq.
Qed.

(** Two waves on the same unit: the wave slot (bits 3:0 of [HW_ID]) and the
    queue (bits 26:24) differ, the identity does not. *)
Lemma smid_same_iff_witness :
  __smid gcn (fun reg => if reg =? 4 then 0x0500 + 3 else 0)
  = __smid gcn (fun reg => if reg =? 4 then 0x0500 + 0x2000000 + 9 else 0).
Proof.
  apply (smid_same_iff gcn). reflexivity.
Defined.

(** ** The kernel: completion, faults, and several leaders *)

Lemma step_stopped L s g :
  (forall g l, locals s !! g = Some l -> stopped l) -> step L s g = s.
Proof.
  intros Hall. unfold step.
  destruct (locals s !! g) as [l|] eqn:Hg; [|done].
  rewrite (stopped_k_step L g l (mem s)) by (by eapply Hall).
  destruct s as [m ls lg]; cbn in *.
  by rewrite list_insert_id, app_nil_r.
Qed.

Lemma kernel_all_stopped L m sched :
  forall g l, locals (kernel L m sched) !! g = Some l -> stopped l.
Proof.
  intros g l Hg.
  assert (Hlt : (g < nthreads L)%nat).
  { apply lookup_lt_Some in Hg. unfold kernel in Hg.
    rewrite length_locals_run in Hg. cbn in Hg. by rewrite length_replicate in Hg. }
  destruct (kernel_stops L m sched g Hlt) as (l' & Hl' & Hst). congruence.
Qed.

(** X6.  Under every schedule the launch of [k] comes to an end: every
    thread of the grid has stopped, at the exit or at a fault, and no
    further scheduling changes the state. *)
Theorem k_completes (L : Launch) (m : Mem) (sched sched' : list nat) :
  run L sched' (kernel L m sched) = kernel L m sched
  /\ length (locals (kernel L m sched)) = nthreads L
  /\ Forall stopped (locals (kernel L m sched)).
Proof.
  split; [|split].
  - induction sched' as [|g sched' IH]; [done|].
    rewrite run_cons, step_stopped; [exact IH|]. apply kernel_all_stopped.
  - unfold kernel. rewrite length_locals_run. cbn. apply length_replicate.
  - apply Forall_lookup. intros g l. apply kernel_all_stopped.
Qed.

(** X7.  When [start_idx] is inside [a0] and [a1] is not empty, no
    thread of the launch faults, every thread reaches the end of [k], and
    both buffers keep their lengths. *)
Theorem k_in_bounds_no_fault (L : Launch) (m : Mem) (sched : list nat) :
  in_bounds L m ->
  let s := kernel L m sched in
  faulted s = false
  /\ locals s = replicate (nthreads L) AtExit
  /\ length (a0 (mem s)) = length (a0 m)
  /\ length (a1 (mem s)) = length (a1 m).
Proof.
  intros Hb s.
  pose proof (kernel_safe L m sched Hb) as Hsafe. fold s in Hsafe.
  split; [by eapply safe_not_faulted|].
  destruct Hsafe as (Hlen & [H0 H1] & _). split; [|done].
  apply list_eq. intros g. destruct (decide (g < nthreads L)%nat) as [Hg|Hg].
  - rewrite lookup_replicate_2 by done. by apply kernel_exits.
  - rewrite !lookup_ge_None_2; [done| rewrite length_replicate; lia | lia].
Qed.

Lemma k_in_bounds_no_fault_witness :
  faulted (kernel small_launch small_mem [4; 0; 4; 5; 4]%nat) = false.
Proof.
  apply (k_in_bounds_no_fault small_launch small_mem); vm_compute; lia.
Defined.

Lemma stuck_local L m g l m1 l' m' evs :
  ~ in_bounds L m ->
  (g < nthreads L)%nat ->
  m1 = m -> stuck_before_store L m g l -> k_step L g l m1 = (l', m', evs) ->
  m' = m /\ stuck_before_store L m g l' /\ Forall reads_only evs.
Proof.
  intros Hout _ -> Hl Hs.
  destruct l; cbn in Hs, Hl; try done.
  - destruct (selected L g) eqn:Hsel; simplify_eq; cbn; by repeat split.
  - subst i. cbn in Hs. simplify_eq. by repeat split.
  - simplify_eq. repeat split; try done. by repeat constructor.
  - destruct (a1 m !! 0%nat) as [v|] eqn:Hv; simplify_eq; cbn.
    + repeat split; try done; [|by repeat constructor].
      apply lookup_ge_None. apply lookup_lt_Some in Hv.
      unfold in_bounds in Hout. lia.
    + by repeat split.
  - destruct Hl as [-> Hnone]. rewrite Hnone in Hs. simplify_eq. by repeat split.
  - simplify_eq. by repeat split.
  - simplify_eq. by repeat split.
Qed.

Lemma run_stuck L m sched :
  ~ in_bounds L m ->
  holds (nthreads L) (fun m' => m' = m) (stuck_before_store L m)
    (fun _ => reads_only) (run L sched (init L m)).
Proof.
  intros Hout. apply holds_run.
  - intros g l m1 l' m' evs. by apply stuck_local.
  - by apply holds_init.
Qed.

Lemma kernel_stuck L m sched :
  ~ in_bounds L m ->
  holds (nthreads L) (fun m' => m' = m) (stuck_before_store L m)
    (fun _ => reads_only) (kernel L m sched).
Proof. intros Hout. by apply run_stuck. Qed.

Lemma kernel_faults L m sched g :
  ~ in_bounds L m -> (g < nthreads L)%nat -> selected L g = true ->
  faulted (kernel L m sched) = true
  /\ mem (kernel L m sched) = m
  /\ stdout_of (log (kernel L m sched)) = [].
Proof.
  intros Hout Hg Hsel.
  destruct (kernel_stuck L m sched Hout) as (_ & Hm & Hl & He).
  split; [|split; [done|]].
  - destruct (kernel_stops L m sched g Hg) as (l & Hgl & Hst).
    unfold faulted. apply existsb_exists. exists l. split.
    + apply list_elem_of_In, list_elem_of_lookup. eauto.
    + specialize (Hl g l Hgl). destruct Hst as [-> | ->]; [|done].
      cbn in Hl. congruence.
  - unfold stdout_of. induction He as [|[t e] evs Hr _ IH]; [done|].
    cbn. rewrite IH. by destruct e.
Qed.

(** X8.  [k] does not check [start_idx]: when it is outside [a0], or
    [a1] is empty, and some thread passes the guard, the launch has
    undefined behaviour under every schedule: it cannot come to its end
    without a thread making the access of line 164 outside a buffer.
    What the launch does after that access is not defined; up to it, at
    every point of every schedule, memory is as it was at the start,
    nothing has been printed, and the threads have only read the cycle
    counter and loaded. *)
Theorem k_out_of_bounds_undefined (L : Launch) (m : Mem) (sched : list nat) (g : nat) :
  (length (a0 m) <= target_index L)%nat \/ a1 m = [] ->
  (g < nthreads L)%nat -> selected L g = true ->
  faulted (kernel L m sched) = true
  /\ (forall sched',
       let s := run L sched' (init L m) in
       faulted s = false ->
       mem s = m /\ stdout_of (log s) = []
       /\ Forall (fun te => reads_only (snd te)) (log s)).
Proof.
  intros Hout Hg Hsel.
  assert (Hnb : ~ in_bounds L m).
  { unfold in_bounds. intros [H0 H1]. destruct Hout as [Hout | Hout]; [lia|].
    rewrite Hout in H1. cbn in H1. lia. }
  destruct (kernel_faults L m sched g Hnb Hg Hsel) as (Hf & _).
  split; [exact Hf|]. intros sched' s _.
  destruct (run_stuck L m sched' Hnb) as (_ & Hm & _ & He).
  split; [exact Hm|]. split; [|exact He].
  unfold stdout_of. fold s in He. clearbody s.
  induction He as [|[t e] evs Hr _ IH]; [done|].
  cbn. rewrite IH. by destruct e.
Qed.

Lemma k_out_of_bounds_undefined_witness :
  faulted (kernel small_launch {| a0 := [10]; a1 := [7; 8] |} [4; 0; 4]%nat) = true.
Proof.
  apply (k_out_of_bounds_undefined small_launch {| a0 := [10]; a1 := [7; 8] |}
           [4; 0; 4]%nat 4);
    [left; vm_compute; lia | vm_compute; lia | reflexivity].
Defined.

(** ** The kernel: five lines for every leader *)

Lemma lines_in_app evs1 evs2 :
  lines_in (evs1 ++ evs2) = (lines_in evs1 + lines_in evs2)%nat.
Proof. unfold lines_in. by rewrite flat_map_app, length_app. Qed.

Lemma lines_by_step g g' log evs :
  lines_by g (log ++ map (pair g') evs)
  = (lines_by g log + if decide (g' = g) then lines_in evs else 0)%nat.
Proof.
  unfold lines_by. rewrite events_of_app, lines_in_app.
  destruct (decide (g' = g)) as [->|Hne].
  - by rewrite events_of_same.
  - by rewrite events_of_other.
Qed.

Lemma lines_local L g l m l' m' evs :
  is_Some (a1 m !! 0%nat) -> is_Some (a0 m !! target_index L) ->
  loop_bounds l -> silent_pos L g l -> k_step L g l m = (l', m', evs) ->
  (lines_done L g l + lines_in evs)%nat = lines_done L g l'.
Proof.
  intros [v Hv] [w Hw] Hl Hsil Hs.
  destruct l; cbn in Hs, Hl; rewrite ?Hv, ?Hw in Hs.
  - destruct (selected L g) eqn:Hsel; simplify_eq; cbn; by rewrite ?Hsel.
  - assert (Hsel : selected L g = true).
    { destruct (selected L g) eqn:E; [done|]. by destruct (Hsil E). }
    destruct (i <? ITERATION) eqn:Hi; simplify_eq; cbn; [lia|].
    rewrite Hsel. apply Z.ltb_ge in Hi. unfold ITERATION in *. lia.
  - simplify_eq. cbn. lia.
  - simplify_eq. cbn. lia.
  - simplify_eq. cbn. lia.
  - simplify_eq. cbn. lia.
  - simplify_eq. cbn. lia.
  - simplify_eq. cbn. rewrite u32_succ by done. unfold ITERATION in *. lia.
  - simplify_eq. cbn. lia.
  - simplify_eq. cbn. lia.
Qed.

Lemma lines_counted_step L m0 s g :
  in_bounds L m0 -> sized m0 (mem s) -> length (locals s) = nthreads L ->
  lines_counted L s ->
  lines_counted L (step L s g) /\ sized m0 (mem (step L s g)).
Proof.
  intros Hb Hsz Hlen Hc. unfold step.
  destruct (locals s !! g) as [l|] eqn:Hg; [|done].
  destruct (k_step L g l (mem s)) as [[l' m'] evs] eqn:Hs.
  assert (Hlt : (g < nthreads L)%nat) by (rewrite <- Hlen; by eapply lookup_lt_Some).
  destruct (Hc g l Hg) as (Hlines & Hlb & Hnf & Hsil).
  destruct (safe_local L m0 g l (mem s) l' m' evs Hb Hlt Hsz Hnf Hs) as (Hsz' & Hnf' & _).
  destruct (bounds_local L g l (mem s) l' m' evs Hlt I Hlb Hs) as (_ & Hlb' & _).
  destruct (guard_local L g l (mem s) l' m' evs Hlt I Hsil Hs) as (_ & Hsil' & _).
  split; [|exact Hsz'].
  intros g' l0 Hg'. cbn [locals log mem] in *. rewrite lines_by_step.
  destruct (decide (g = g')) as [<-|Hne].
  - rewrite list_lookup_insert_eq in Hg' by (by eapply lookup_lt_Some).
    simplify_eq. rewrite Hlines. split; [|done].
    destruct Hb as [Hb0 Hb1]. destruct Hsz as [H0 H1].
    apply (lines_local L g l (mem s) l0 m' evs); try done;
      apply lookup_lt_is_Some; lia.
  - rewrite list_lookup_insert_ne in Hg' by done.
    rewrite Nat.add_0_r. by apply Hc.
Qed.

Lemma lines_counted_run L m0 sched :
  in_bounds L m0 ->
  forall s, sized m0 (mem s) -> length (locals s) = nthreads L ->
    lines_counted L s ->
    lines_counted L (run L sched s).
Proof.
  intros Hb. induction sched as [|g sched IH]; intros s Hsz Hlen Hc; [done|].
  rewrite run_cons.
  destruct (lines_counted_step L m0 s g Hb Hsz Hlen Hc) as [Hc' Hsz'].
  apply IH; [done| by rewrite length_locals_step |done].
Qed.

Lemma lines_by_kernel L m sched g :
  in_bounds L m -> (g < nthreads L)%nat ->
  lines_by g (log (kernel L m sched))
  = if selected L g then Z.to_nat ITERATION else 0%nat.
Proof.
  intros Hb Hg.
  assert (Hc : lines_counted L (kernel L m sched)).
  { unfold kernel. apply (lines_counted_run L m); try done.
    - cbn. apply length_replicate.
    - intros g' l Hl. cbn in Hl. apply lookup_replicate in Hl as [-> _].
      repeat split; try done. by left. }
  destruct (Hc g AtExit (kernel_exits L m sched g Hb Hg)) as [-> _]. done.
Qed.

Lemma sum_indicator (t c a n : nat) :
  sum_list (map (fun g => if (t =? g)%nat then c else 0%nat) (seq a n))
  = if decide (a <= t < a + n)%nat then c else 0%nat.
Proof.
  revert a. induction n as [|n IH]; intros a; cbn.
  - destruct (decide _); [lia|done].
  - rewrite IH. destruct (Nat.eqb_spec t a) as [->|Hne].
    + repeat destruct (decide _); lia.
    + repeat destruct (decide _); lia.
Qed.

Lemma sum_list_plus {A} (f h : A -> nat) l :
  sum_list (map (fun x => f x + h x)%nat l)
  = (sum_list (map f l) + sum_list (map h l))%nat.
Proof. induction l as [|x l IH]; cbn; [done|]. rewrite IH. lia. Qed.

Lemma lines_by_cons g t e evs :
  lines_by g ((t, e) :: evs)
  = ((if (t =? g)%nat then lines_in [e] else 0) + lines_by g evs)%nat.
Proof.
  unfold lines_by, events_of. cbn [flat_map fst snd].
  destruct (t =? g)%nat; [|done].
  change ([e] ++ ?x) with ([e] ++ x). by rewrite lines_in_app.
Qed.

Lemma lines_total n evs :
  Forall (fun te => (fst te < n)%nat) evs ->
  length (stdout_of evs) = sum_list (map (fun g => lines_by g evs) (seq 0 n)).
Proof.
  induction 1 as [|[t e] evs Ht _ IH].
  - cbn. induction (seq 0 n); [done|]. cbn. done.
  - cbn [fst] in Ht.
    rewrite (map_ext _ (fun g => (if (t =? g)%nat then lines_in [e] else 0)
                                 + lines_by g evs)%nat)
      by (intros; apply lines_by_cons).
    rewrite sum_list_plus, sum_indicator, <- IH.
    destruct (decide _); [|lia].
    unfold stdout_of. cbn [flat_map snd]. rewrite length_app.
    unfold lines_in. cbn [flat_map]. by rewrite app_nil_r.
Qed.

Lemma sum_selected L l :
  sum_list (map (fun g => if selected L g then Z.to_nat ITERATION else 0%nat) l)
  = (5 * length (filter (fun g => selected L g = true) l))%nat.
Proof.
  induction l as [|g l IH]; [done|]. cbn [map sum_list].
  rewrite filter_cons, IH. destruct (selected L g) eqn:Hsel.
  - rewrite decide_True by done. cbn [length]. unfold id.
    replace (Z.to_nat ITERATION) with 5%nat by reflexivity. lia.
  - rewrite decide_False by congruence. unfold id. lia.
Qed.

Lemma kernel_line_count L m sched :
  in_bounds L m ->
  length (stdout_of (log (kernel L m sched))) = (5 * length (leaders L))%nat.
Proof.
  intros Hb. unfold leaders.
  rewrite (lines_total (nthreads L)).
  - rewrite <- sum_selected. f_equal. apply map_ext_in. intros g Hg.
    apply in_seq in Hg. apply lines_by_kernel; [done|lia].
  - destruct (guard_run L m (sched ++ drain L)) as (_ & _ & _ & He).
    eapply Forall_impl; [exact He|]. by intros [t e] (? & _).
Qed.

Lemma selected_first L b :
  (0 < blockDim_x L)%nat ->
  selected L (b * blockDim_x L) = (group_identity L b =? sm_chosen L).
Proof.
  intros HB. unfold selected, sm_id, blockIdx_x, threadIdx_x.
  rewrite Nat.div_mul, Nat.Div0.mod_mul by lia. cbn. apply andb_true_r.
Qed.

Lemma selected_rest L b j :
  (0 < j < blockDim_x L)%nat -> selected L (b * blockDim_x L + j) = false.
Proof.
  intros Hj. unfold selected, threadIdx_x.
  rewrite Nat.add_comm, Nat.Div0.mod_add, Nat.mod_small by lia.
  destruct (Nat.eqb_spec j 0); [lia|]. apply andb_false_r.
Qed.

Lemma filter_none {A} (P : A -> Prop) `{forall x, Decision (P x)} (l : list A) :
  Forall (fun x => ~ P x) l -> filter P l = [].
Proof.
  induction 1 as [|x l Hx _ IH]; [done|].
  by rewrite filter_cons, decide_False, IH.
Qed.

Lemma leaders_of_block L b :
  (0 < blockDim_x L)%nat ->
  filter (fun g => selected L g = true) (seq (b * blockDim_x L) (blockDim_x L))
  = if decide (group_identity L b = sm_chosen L) then [(b * blockDim_x L)%nat] else [].
Proof.
  intros HB. destruct (blockDim_x L) as [|B] eqn:HBd; [lia|].
  cbn [seq]. rewrite filter_cons.
  assert (Hrest : filter (fun g => selected L g = true) (seq (S (b * S B)) B) = []).
  { apply filter_none, Forall_forall. intros g Hg. apply elem_of_seq in Hg.
    replace g with (b * blockDim_x L + (g - b * S B))%nat by (rewrite HBd; lia).
    rewrite selected_rest by (rewrite HBd; lia). congruence. }
  rewrite Hrest. rewrite <- HBd, selected_first by lia.
  destruct (Z.eqb_spec (group_identity L b) (sm_chosen L)).
  - by rewrite !decide_True.
  - rewrite !decide_False; done.
Qed.

Lemma leaders_upto L G :
  (0 < blockDim_x L)%nat ->
  filter (fun g => selected L g = true) (seq 0 (G * blockDim_x L))
  = map (fun b => (b * blockDim_x L)%nat)
      (filter (fun b => group_identity L b = sm_chosen L) (seq 0 G)).
Proof.
  intros HB. induction G as [|G IH]; [done|].
  replace (S G * blockDim_x L)%nat with (G * blockDim_x L + blockDim_x L)%nat by lia.
  rewrite seq_app, filter_app, IH, Nat.add_0_l, leaders_of_block by done.
  rewrite seq_S, filter_app, map_app. f_equal. cbn [seq Nat.add].
  rewrite filter_cons, filter_nil. by destruct (decide _).
Qed.

(** X9.  With [start_idx] inside the buffers, the launch prints five
    lines for every thread that passes the guard, under every schedule;
    with a block size above zero those threads are the first threads of
    the blocks placed on the target unit, so that the output has five
    lines per such block. *)
Theorem k_five_lines_per_leader (L : Launch) (m : Mem) (sched : list nat) :
  in_bounds L m ->
  length (stdout_of (log (kernel L m sched))) = (5 * length (leaders L))%nat
  /\ ((0 < blockDim_x L)%nat ->
      leaders L = map (fun b => (b * blockDim_x L)%nat) (matching_groups L)
      /\ length (stdout_of (log (kernel L m sched)))
         = (5 * length (matching_groups L))%nat).
Proof.
  intros Hb. pose proof (kernel_line_count L m sched Hb) as Hc.
  split; [exact Hc|]. intros HB.
  assert (Hl : leaders L = map (fun b => (b * blockDim_x L)%nat) (matching_groups L))
    by (by apply leaders_upto).
  split; [exact Hl|]. by rewrite Hc, Hl, length_map.
Qed.

Lemma k_five_lines_per_leader_witness :
  length (stdout_of (log (kernel shared_unit_launch small_mem [2; 0; 2; 0]%nat)))
  = 10%nat.
Proof.
  assert (Hb : in_bounds shared_unit_launch small_mem) by (vm_compute; lia).
  assert (HB : (0 < blockDim_x shared_unit_launch)%nat) by (vm_compute; lia).
  exact (proj2 (proj2 (k_five_lines_per_leader shared_unit_launch small_mem
                         [2; 0; 2; 0]%nat Hb) HB)).
Defined.

(** ** The kernel: what a single leader leaves behind *)

Lemma accumulate_wrap v w i :
  accumulate v w (S i) = U32.wrap (w + Z.of_nat (S i) * v).
Proof.
  induction i as [|i IH].
  - cbn. unfold U32.add. f_equal. lia.
  - change (accumulate v w (S (S i))) with (U32.add (accumulate v w (S i)) v).
    rewrite IH. unfold U32.add, U32.wrap.
    rewrite Zplus_mod_idemp_l. f_equal. lia.
Qed.

(** X10.  When exactly one block is on the target unit, the launch leaves
    in [a0[start_idx]] its old value plus five times [a1[0]], modulo
    2^32; [a0] is otherwise as before, and so is [a1]. *)
Theorem k_accumulates (L : Launch) (m : Mem) (sched : list nat) (b : nat) (v w : Z) :
  (0 < blockDim_x L)%nat -> matching_groups L = [b] ->
  a1 m !! 0%nat = Some v -> a0 m !! target_index L = Some w ->
  let s := kernel L m sched in
  a0 (mem s) = <[target_index L := (w + ITERATION * v) mod 2 ^ 32]> (a0 m)
  /\ a0 (mem s) !! target_index L = Some ((w + ITERATION * v) mod 2 ^ 32)
  /\ a1 (mem s) = a1 m.
Proof.
  intros HB Hone Hv Hw s.
  destruct (kernel_single L m sched b v w HB Hone Hv Hw) as [_ Hm].
  fold s in Hm. rewrite Hm. cbn [a0 a1].
  change (Z.to_nat ITERATION) with 5%nat. rewrite accumulate_wrap.
  split; [reflexivity|]. split; [|reflexivity].
  apply list_lookup_insert_eq. by eapply lookup_lt_Some.
Qed.

Lemma k_accumulates_witness :
  a0 (mem (kernel small_launch small_mem [4; 0; 4; 5; 4]%nat)) !! 1%nat = Some 55.
Proof.
  apply (k_accumulates small_launch small_mem [4; 0; 4; 5; 4]%nat 2 7 20);
    [vm_compute; lia | reflexivity | reflexivity | reflexivity].
Defined.

(** X11.  When exactly one block is on the target unit and, in each of
    the five iterations, the cycle counter advances between the two reads
    by less than 2^32, the five lines printed read back as exactly those
    five differences, in order. *)
Theorem k_latency_exact (L : Launch) (m : Mem) (sched : list nat) (b : nat) :
  (0 < blockDim_x L)%nat -> in_bounds L m -> matching_groups L = [b] ->
  let g := (b * blockDim_x L)%nat in
  (forall i, (i < 5)%nat ->
     0 <= clock L g (2 * i + 1) - clock L g (2 * i) < 2 ^ 32) ->
  map parse_line (stdout_of (log (kernel L m sched)))
  = map (fun i => Some (clock L g (2 * i + 1) - clock L g (2 * i)))
      [0; 1; 2; 3; 4]%nat.
Proof.
  intros HB [Hb0 Hb1] Hone g Hclk.
  destruct (lookup_lt_is_Some_2 (a1 m) 0) as [v Hv]; [done|].
  destruct (lookup_lt_is_Some_2 (a0 m) (target_index L)) as [w Hw]; [done|].
  rewrite (k_single_lines L m sched b v w HB Hone Hv Hw).
  rewrite <- list_fmap_compose. apply map_ext_in. intros i Hi. unfold compose.
  assert (Hlt : (i < 5)%nat)
    by (repeat (destruct Hi as [<-|Hi]; [lia|]); destruct Hi).
  specialize (Hclk i Hlt). unfold latency_of, U32.sub.
  fold g. rewrite (wrap_small _ Hclk). apply parse_printf. lia.
Qed.

Lemma k_latency_exact_witness :
  map parse_line (stdout_of (log (kernel small_launch small_mem [4; 0; 4; 5; 4]%nat)))
  = [Some 40; Some 40; Some 40; Some 40; Some 40].
Proof.
  apply (k_latency_exact small_launch small_mem [4; 0; 4; 5; 4]%nat 2);
    [vm_compute; lia | vm_compute; lia | reflexivity |].
  intros i Hi. unfold small_launch. cbn [clock]. lia.
Defined.

(** ** The host program: runs that leave the expected path *)

(** X12.  [main] does not look at [argc]: started with fewer than two
    arguments it reads an argument that is not there, after
    [hipSetDevice(0)] and before anything is allocated or printed. *)
Theorem main_missing_argument (E : Env) (argv : list string) :
  (length argv < 3)%nat ->
  let r := run_main E argv in
  outcome r = Undefined
  /\ actions r.(final) = [HipSetDevice 0]
  /\ stdout r.(final) = [].
Proof.
  intros Hlen r. unfold r, run_main, main, bind, emit, arg, call_atoi, int_mul.
  assert (H2 : argv !! 2%nat = None) by (apply lookup_ge_None; lia).
  destruct (argv !! 1%nat) as [s1|]; [|done].
  destruct (atoi s1) as [n|]; [|done].
  destruct (_ && _); [|done].
  by rewrite H2.
Qed.

Lemma main_missing_argument_witness :
  outcome (run_main quiet_env ["./hip-latency"; "3"]%string) = Undefined.
Proof.
  apply (main_missing_argument quiet_env ["./hip-latency"; "3"]%string).
  cbn. lia.
Defined.

(** X13.  [main] does not check the result of [malloc]: when it returns
    a null pointer and the two device allocations succeed, the fill loop
    of lines 193-195 writes through that pointer; until then the program
    has set the device, called [malloc] and allocated the two device
    buffers with their checks, and it has printed nothing. *)
Theorem main_malloc_failure (E : Env) (argv : list string) (s1 s2 : string) (n m : Z) :
  argv !! 1%nat = Some s1 -> atoi s1 = Some n ->
  argv !! 2%nat = Some s2 -> atoi s2 = Some m ->
  INT_MIN <= n * 64 <= INT_MAX ->
  malloc_ok E = false ->
  last_error E 0 = hipSuccess -> last_error E 1 = hipSuccess ->
  let r := run_main E argv in
  outcome r = Undefined
  /\ actions r.(final)
     = [ HipSetDevice 0; Malloc buffer_bytes;
         HipMalloc A0 buffer_bytes; HipGetLastError hipSuccess;
         HipMalloc A1 buffer_bytes; HipGetLastError hipSuccess ]
  /\ stdout r.(final) = [].
Proof.
  intros Hs1 Hn Hs2 Hm Hint Hmalloc H0 H1 r. unfold r, run_main.
  rewrite (main_parsed E argv s1 s2 n m) by done.
  host_step E. rewrite Hmalloc.
  pass_next E H0. pass_next E H1. host_step E. by repeat split.
Qed.

Lemma main_malloc_failure_witness :
  outcome (run_main no_memory_env small_argv) = Undefined.
Proof.
  apply (main_malloc_failure no_memory_env small_argv "3" "2" 3 2);
    [reflexivity | reflexivity | reflexivity | reflexivity
    | unfold INT_MIN, INT_MAX; lia | reflexivity | reflexivity | reflexivity].
Defined.

(** X14.  When no block is placed on the target unit and no check
    fails, [main] returns 0 having printed nothing; the launch has done
    nothing on the device and both device buffers hold 0, 1, 2, ... as
    copied.  This holds for every start index that fits an [int], also
    one outside the buffers. *)
Theorem main_no_match_silent (E : Env) (argv : list string) (s1 s2 : string) (n m : Z) :
  argv !! 1%nat = Some s1 -> atoi s1 = Some n ->
  argv !! 2%nat = Some s2 -> atoi s2 = Some m ->
  INT_MIN <= n * 64 <= INT_MAX -> malloc_ok E = true ->
  (forall j, (j < 6)%nat -> last_error E j = hipSuccess) ->
  matching_groups (launch_of E (n * 64) m) = [] ->
  let r := run_main E argv in
  outcome r = Returned 0
  /\ stdout r.(final) = []
  /\ device_log r.(final) = []
  /\ dev r.(final) = iota_mem.
Proof.
  intros Hs1 Hn Hs2 Hm Hint Hmalloc Hok Hnone r. unfold r.
  by rewrite (run_main_no_match E argv s1 s2 n m).
Qed.

Lemma identity_below_2048 b regs : 0 <= get_smid b regs < 2048.
Proof.
  destruct (pack_value b (read_fields b regs) (read_fields_legal b regs))
    as (_ & Hr & Hw).
  unfold get_smid, __smid.
  assert (2 ^ identity_width b (read_fields b regs) <= 2 ^ 11)
    by (apply Z.pow_le_mono_r; lia).
  change (2 ^ 11) with 2048 in *. lia.
Qed.

Lemma no_match_outside_range L :
  ~ (0 <= sm_chosen L < 2048) -> matching_groups L = [].
Proof.
  intros Hout. unfold matching_groups. apply filter_none, Forall_forall.
  intros b _ Heq. unfold group_identity in Heq.
  pose proof (identity_below_2048 (build L) (placement L b)). lia.
Qed.

(** X15.  A target unit that is negative or at least 2048 is the
    identity of no block, on any device (the identity being the one
    [__smid] computes): when no check fails [main] then returns 0 and
    prints nothing. *)
Theorem main_target_never_on_device
    (E : Env) (argv : list string) (s1 s2 : string) (n m : Z) :
  argv !! 1%nat = Some s1 -> atoi s1 = Some n ->
  argv !! 2%nat = Some s2 -> atoi s2 = Some m ->
  INT_MIN <= n * 64 <= INT_MAX -> malloc_ok E = true ->
  (forall j, (j < 6)%nat -> last_error E j = hipSuccess) ->
  m < 0 \/ 2048 <= m ->
  let r := run_main E argv in
  outcome r = Returned 0 /\ stdout r.(final) = [].
Proof.
  intros Hs1 Hn Hs2 Hm Hint Hmalloc Hok Hout r. unfold r.
  rewrite (run_main_no_match E argv s1 s2 n m); [done..|].
  apply no_match_outside_range. unfold launch_of. cbn [sm_chosen].
  pose proof (atoi_range s2 m Hm) as Hr. unfold INT_MIN, INT_MAX in Hr.
  unfold U32.wrap, U32.modulus. destruct Hout as [Hneg | Hbig].
  - replace (m mod 2 ^ 32) with (m + 2 ^ 32); [lia|].
    apply (Z.mod_unique_pos _ _ (-1)); lia.
  - rewrite Z.mod_small by lia. lia.
Qed.

Lemma main_no_match_silent_witness :
  outcome (run_main quiet_env ["./hip-latency"; "3"; "100"]%string) = Returned 0.
Proof.
  apply (main_no_match_silent quiet_env
           ["./hip-latency"; "3"; "100"]%string "3" "100" 3 100);
    [reflexivity | reflexivity | reflexivity | reflexivity
    | unfold INT_MIN, INT_MAX; lia | reflexivity
    | intros j _; reflexivity | vm_compute; reflexivity].
Defined.

Lemma main_target_never_on_device_witness :
  stdout (final (run_main quiet_env ["./hip-latency"; "3"; "-1"]%string)) = [].
Proof.
  apply (main_target_never_on_device quiet_env
           ["./hip-latency"; "3"; "-1"]%string "3" "-1" 3 (-1));
    [reflexivity | reflexivity | reflexivity | reflexivity
    | unfold INT_MIN, INT_MAX; lia | reflexivity
    | intros j _; reflexivity | lia].
Defined.

Lemma launch_out_of_bounds E start chosen :
  S_SIZE <= U32.wrap start ->
  ~ in_bounds (launch_of E start chosen) iota_mem.
Proof.
  intros Hbig [Hlt _].
  assert (Hlen : length (a0 iota_mem) = Z.to_nat S_SIZE) by apply length_iota.
  rewrite Hlen in Hlt. clear Hlen.
  assert (Ht : target_index (launch_of E start chosen) = Z.to_nat (U32.wrap start))
    by reflexivity.
  rewrite Ht in Hlt. clear Ht.
  pose proof (wrap_range start) as Hw.
  assert (H0 : 0 <= S_SIZE) by (by rewrite S_SIZE_value).
  pose proof (proj2 (Z2Nat.inj_lt (U32.wrap start) S_SIZE (proj1 Hw) H0) Hlt).
  lia.
Qed.

Lemma launch_has_leader E start chosen :
  matching_groups (launch_of E start chosen) <> [] ->
  exists g, (g < nthreads (launch_of E start chosen))%nat
            /\ selected (launch_of E start chosen) g = true.
Proof.
  intros Hne.
  destruct (matching_groups (launch_of E start chosen)) as [|b bs] eqn:Hm; [done|].
  assert (Hb : b ∈ matching_groups (launch_of E start chosen))
    by (rewrite Hm; left).
  unfold matching_groups in Hb. apply list_elem_of_filter in Hb as [Heq Hin].
  apply elem_of_seq in Hin.
  exists (b * blockDim_x (launch_of E start chosen))%nat. split.
  - unfold nthreads. apply Nat.mul_lt_mono_pos_r; [|lia].
    unfold launch_of, BLOCK_SIZE. cbn. lia.
  - rewrite selected_first by (unfold launch_of, BLOCK_SIZE; cbn; lia).
    by apply Z.eqb_eq.
Qed.

(** X16.  [main] does not check the start index against the buffer
    size: when it is, as an [unsigned int], at least [S_SIZE] (a first
    argument of 8192 or more, or a negative one) and some block is on the
    target unit, the launch accesses [a0] outside the buffer.  The
    program has then gone as far as the launch of line 202, it has
    printed nothing, and the device buffers are as copied. *)
Theorem main_start_outside_buffer
    (E : Env) (argv : list string) (s1 s2 : string) (n m : Z) :
  argv !! 1%nat = Some s1 -> atoi s1 = Some n ->
  argv !! 2%nat = Some s2 -> atoi s2 = Some m ->
  INT_MIN <= n * 64 <= INT_MAX -> malloc_ok E = true ->
  (forall j, (j < 5)%nat -> last_error E j = hipSuccess) ->
  S_SIZE <= U32.wrap (n * 64) ->
  matching_groups (launch_of E (n * 64) m) <> [] ->
  let r := run_main E argv in
  outcome r = Undefined
  /\ actions r.(final)
     = take 13 (clean_actions (U32.wrap (n * 64)) (U32.wrap m))
  /\ stdout r.(final) = []
  /\ dev r.(final) = iota_mem.
Proof.
  intros Hs1 Hn Hs2 Hm Hint Hmalloc Hok Hbig Hne r. unfold r, run_main.
  rewrite (main_parsed E argv s1 s2 n m) by done.
  destruct (launch_has_leader E (n * 64) m Hne) as (g & Hg & Hsel).
  destruct (kernel_faults (launch_of E (n * 64) m) iota_mem (schedule E) g
              (launch_out_of_bounds E (n * 64) m Hbig) Hg Hsel) as (Hf & _).
  by rewrite main_body_faulted.
Qed.

Lemma main_start_outside_buffer_witness :
  outcome (run_main quiet_env ["./hip-latency"; "-1"; "2"]%string) = Undefined.
Proof.
  apply (main_start_outside_buffer quiet_env
           ["./hip-latency"; "-1"; "2"]%string "-1" "2" (-1) 2);
    [reflexivity | reflexivity | reflexivity | reflexivity
    | unfold INT_MIN, INT_MAX; lia | reflexivity
    | intros j _; reflexivity | rewrite S_SIZE_value; by vm_compute
    | by vm_compute].
Defined.

Lemma numeric_local L g l m l' m' evs :
  (g < nthreads L)%nat ->
  True -> latency_in_range l -> k_step L g l m = (l', m', evs) ->
  True /\ latency_in_range l' /\ Forall prints_numeric evs.
Proof.
  intros _ _ Hl Hs.
  destruct l; cbn in Hs; repeat case_match; simplify_eq;
    repeat split; repeat constructor; try done; cbn.
  - apply wrap_range.
  - apply wrap_range.
  - apply decimal_line_printf.
  - exists latency. split; [done|]. apply parse_printf. cbn in Hl. lia.
Qed.

Lemma kernel_lines_numeric L m sched :
  Forall numeric_line (stdout_of (log (kernel L m sched))).
Proof.
  assert (H : holds (nthreads L) (fun _ => True) (fun _ => latency_in_range)
                (fun _ => prints_numeric) (kernel L m sched)).
  { unfold kernel. apply holds_run; [apply numeric_local|].
    by apply holds_init. }
  destruct H as (_ & _ & _ & He). unfold stdout_of.
  induction He as [|[g e] evs Hhd _ IH]; [constructor|].
  cbn [flat_map]. apply Forall_app. split; [|exact IH].
  destruct e; cbn; constructor; [exact Hhd|constructor].
Qed.

(** X17.  In a run of [main] in which no check fails and the start index
    is inside the buffers, the output is five lines for every block placed
    on the target unit and nothing else, and every line is decimal digits
    and a newline that read back as a number below 2^32. *)
Theorem main_output_shape
    (E : Env) (argv : list string) (s1 s2 : string) (n m : Z) :
  argv !! 1%nat = Some s1 -> atoi s1 = Some n ->
  argv !! 2%nat = Some s2 -> atoi s2 = Some m ->
  0 <= n * 64 < S_SIZE -> malloc_ok E = true ->
  (forall j, (j < 6)%nat -> last_error E j = hipSuccess) ->
  let out := stdout (final (run_main E argv)) in
  length out = (5 * length (matching_groups (launch_of E (n * 64) m)))%nat
  /\ Forall numeric_line out.
Proof.
  intros Hs1 Hn Hs2 Hm Hr Hmalloc Hok out. unfold out.
  rewrite (run_main_clean E argv s1 s2 n m) by done. cbn [final stdout].
  split; [|apply kernel_lines_numeric].
  rewrite kernel_line_count by (by apply launch_in_bounds).
  unfold leaders, nthreads, matching_groups.
  rewrite leaders_upto by (unfold launch_of, BLOCK_SIZE; cbn; lia).
  by rewrite length_map.
Qed.

Lemma main_output_shape_witness :
  length (stdout (final (run_main quiet_env small_argv))) = 10%nat.
Proof.
  assert (Hm : length (matching_groups (launch_of quiet_env (3 * 64) 2)) = 2%nat)
    by (by vm_compute).
  destruct (main_output_shape quiet_env small_argv "3" "2" 3 2) as [H _];
    [reflexivity | reflexivity | reflexivity | reflexivity
    | rewrite S_SIZE_value; lia | reflexivity | intros j _; reflexivity |].
  exact (eq_trans H (f_equal (Nat.mul 5) Hm)).
Defined.

(** X18.  The loop of lines 193-195 overwrites the whole host buffer:
    whatever [malloc] returned in it, afterwards element [i] holds [i]
    for every [i] below [S_SIZE], no value being reduced modulo 2^32. *)
Theorem fill_loop_overwrites (a : list Z) :
  length a = Z.to_nat S_SIZE ->
  fill_loop a = iota (Z.to_nat S_SIZE)
  /\ (forall i, (i < Z.to_nat S_SIZE)%nat -> fill_loop a !! i = Some (Z.of_nat i)).
Proof.
  intros Hlen.
  assert (Heq : fill_loop a = iota (Z.to_nat S_SIZE)).
  { unfold fill_loop.
    rewrite (fill_prefix (fun i => U32.wrap (Z.of_nat i)) (Z.to_nat S_SIZE) a)
      by (by rewrite Hlen).
    rewrite drop_ge, app_nil_r by (by rewrite Hlen).
    unfold iota. apply map_ext_in. intros i Hi. apply in_seq in Hi.
    unfold U32.wrap, U32.modulus. apply Z.mod_small.
    assert (Z.of_nat i < S_SIZE) by lia.
    rewrite S_SIZE_value in *. lia. }
  split; [exact Heq|]. intros i Hi. rewrite Heq. by apply lookup_iota.
Qed.

Lemma fill_loop_overwrites_witness :
  fill_loop (replicate (Z.to_nat S_SIZE) 7) !! 3%nat = Some 3.
Proof.
  assert (Hi : (3 < Z.to_nat S_SIZE)%nat) by (rewrite S_SIZE_value; lia).
  exact (proj2 (fill_loop_overwrites (replicate (Z.to_nat S_SIZE) 7)
                  (length_replicate (Z.to_nat S_SIZE) 7)) 3%nat Hi).
Defined.

(** X19.  A run of [main] that ends at a failed check releases nothing:
    among its actions there is no [free] and no [hipFree], and the last
    one is [exit(0)]. *)
Theorem failed_check_releases_nothing
    (E : Env) (argv : list string) (s1 s2 : string) (n m : Z)
    (k : nat) (line e : Z) :
  argv !! 1%nat = Some s1 -> atoi s1 = Some n ->
  argv !! 2%nat = Some s2 -> atoi s2 = Some m ->
  0 <= n * 64 < S_SIZE -> malloc_ok E = true ->
  check_lines !! k = Some line ->
  (forall j, (j < k)%nat -> last_error E j = hipSuccess) ->
  last_error E k = e -> e <> hipSuccess ->
  existsb releases (actions (final (run_main E argv))) = false
  /\ last (actions (final (run_main E argv))) = Some (Exit 0).
Proof.
  intros Hs1 Hn Hs2 Hm Hr Hmalloc Hline Hok He Hne.
  destruct (run_main_fail E argv s1 s2 n m k line e) as (_ & -> & _); [done..|].
  apply lookup_lt_Some in Hline. unfold check_lines in Hline. cbn in Hline.
  do 6 (destruct k as [|k]; [split; reflexivity|]). lia.
Qed.

Lemma failed_check_releases_nothing_witness :
  existsb releases
    (actions (final (run_main (failing_env 3 2 "out of memory") small_argv)))
  = false.
Proof.
  apply (failed_check_releases_nothing (failing_env 3 2 "out of memory")
           small_argv "3" "2" 3 2 3%nat 200 2);
    [reflexivity | reflexivity | reflexivity | reflexivity
    | rewrite S_SIZE_value; lia | reflexivity | reflexivity
    | intros j Hj; do 3 (destruct j as [|j]; [reflexivity|]); lia
    | reflexivity | discriminate].
Defined.
